(** * PipelineSage: the heal loop, its helpers and its scoring

    A shallow embedding of the backend of the autonomous DevOps agent
    (backend/src/utils, backend/src/agents, backend/src/routes) and the
    properties its specification states about it.

    Strings are JavaScript strings: finite sequences of UTF-16 code units,
    here [list N].  Regular expressions are the non-unicode-mode literals of
    the source, run by a backtracking matcher that follows the ECMAScript
    order of alternatives (greedy, leftmost). *)

From Stdlib Require Import ZArith NArith List Bool Lia Ascii.
From stdpp Require Import base option list strings gmap.

Import ListNotations.

Set Default Proof Using "Type".

(** ** JavaScript strings *)

Module JS.

Abbreviation jsstring := (list N).

(** A string literal of the source, as its code units. *)
Definition str (s : string) : jsstring :=
  map Ascii.N_of_ascii (String.list_ascii_of_string s).
Arguments str s%_string : simpl never.

Definition between (lo hi c : N) : bool := ((lo <=? c) && (c <=? hi))%N.

(** [\s], and the characters [String.prototype.trim] strips: WhiteSpace and
    LineTerminator of ECMAScript. *)
Definition is_space (c : N) : bool :=
  between 9 13 c || (c =? 32)%N || (c =? 160)%N || (c =? 0x1680)%N
  || between 0x2000 0x200A c || (c =? 0x2028)%N || (c =? 0x2029)%N
  || (c =? 0x202F)%N || (c =? 0x205F)%N || (c =? 0x3000)%N || (c =? 0xFEFF)%N.

(** LineTerminator: what [.] does not match. *)
Definition is_line_terminator (c : N) : bool :=
  (c =? 10)%N || (c =? 13)%N || (c =? 0x2028)%N || (c =? 0x2029)%N.

Definition is_digit (c : N) : bool := between 48 57 c.
Definition is_upper (c : N) : bool := between 65 90 c.
Definition is_lower (c : N) : bool := between 97 122 c.
(** [\w] *)
Definition is_word (c : N) : bool :=
  is_upper c || is_lower c || is_digit c || (c =? 95)%N.

Definition ascii_upper (c : N) : N := if is_lower c then (c - 32)%N else c.
Definition ascii_lower (c : N) : N := if is_upper c then (c + 32)%N else c.

Definition eqb_str (a b : jsstring) : bool := bool_decide (a = b).

Fixpoint starts_with (p s : jsstring) : bool :=
  match p, s with
  | [], _ => true
  | _ :: _, [] => false
  | a :: p', b :: s' => (a =? b)%N && starts_with p' s'
  end.

(** [s.includes(p)] *)
Fixpoint includes (p s : jsstring) : bool :=
  starts_with p s || match s with [] => false | _ :: s' => includes p s' end.

Fixpoint drop_while (f : N -> bool) (s : jsstring) : jsstring :=
  match s with
  | [] => []
  | c :: s' => if f c then drop_while f s' else s
  end.

Definition trimStart (s : jsstring) : jsstring := drop_while is_space s.
Definition trimEnd (s : jsstring) : jsstring := rev (drop_while is_space (rev s)).
Definition trim (s : jsstring) : jsstring := trimEnd (trimStart s).

(** [s.split(sep)] for a one-unit separator: never the empty array. *)
Fixpoint split_on (sep : N) (s : jsstring) : list jsstring :=
  match s with
  | [] => [[]]
  | c :: s' =>
      if (c =? sep)%N then [] :: split_on sep s'
      else match split_on sep s' with
           | [] => [[c]]
           | l :: ls => (c :: l) :: ls
           end
  end.

(** [parts.join(sep)] *)
Fixpoint join (sep : jsstring) (parts : list jsstring) : jsstring :=
  match parts with
  | [] => []
  | [p] => p
  | p :: ps => p ++ sep ++ join sep ps
  end.

(** Truthiness of a string: the empty string is falsy. *)
Definition truthy_str (s : jsstring) : bool :=
  match s with [] => false | _ => true end.

(** [s.slice(-n)]: the last [n] code units. *)
Definition slice_last (n : N) (s : jsstring) : jsstring :=
  drop (N.to_nat (N.of_nat (length s) - n)) s.

(** Decimal digits of a natural number, as [String(n)] prints them. *)
Fixpoint digits_fuel (fuel : nat) (n : N) (acc : jsstring) : jsstring :=
  match fuel with
  | O => acc
  | S f =>
      let acc' := (48 + n mod 10)%N :: acc in
      if (n / 10 =? 0)%N then acc' else digits_fuel f (n / 10)%N acc'
  end.

Definition string_of_N (n : N) : jsstring := digits_fuel (S (N.to_nat (N.log2 n))) n [].

(** [parseInt(ds, 10)] on a run of decimal digits. *)
Definition parseInt_digits (ds : jsstring) : N :=
  fold_left (fun acc d => (acc * 10 + (d - 48))%N) ds 0%N.

(** *** [String.prototype.toUpperCase]

    The ASCII letters are mapped here.  The mapping of the code units
    above 127 is the engine's Unicode table, which is no part of the
    repository: it is a parameter, applied to each maximal run of such
    units (a run holds whole code points, surrogate pairs included). *)
Section UpperCase.
Variable unicode_upper : jsstring -> jsstring.

Definition flush_run (run : jsstring) : jsstring :=
  match run with [] => [] | _ => unicode_upper (rev run) end.

Fixpoint toUpperCase_aux (run s : jsstring) : jsstring :=
  match s with
  | [] => flush_run run
  | c :: s' =>
      if (c <? 128)%N
      then flush_run run ++ ascii_upper c :: toUpperCase_aux [] s'
      else toUpperCase_aux (c :: run) s'
  end.

Definition toUpperCase (s : jsstring) : jsstring := toUpperCase_aux [] s.
End UpperCase.

End JS.

(** ** Regular expressions

    The fragment the source uses: classes, sequence, alternation, greedy
    star, capture groups.  [rmatch] is the backtracking matcher of
    ECMAScript in continuation-passing style: alternatives left to right,
    a star tries one more iteration before it tries to stop, and an
    iteration that consumes nothing is refused. *)

Module Regex.
Import JS.

Inductive regex : Type :=
| Eps : regex
| Cls : (N -> bool) -> regex
| Seq : regex -> regex -> regex
| Alt : regex -> regex -> regex
| Star : regex -> regex
| Group : nat -> regex -> regex.

(** Captures: group number to captured text, the latest binding first. *)
Abbreviation caps := (list (nat * list N)).

Definition cap (i : nat) (c : caps) : option jsstring :=
  snd <$> List.find (fun p => Nat.eqb (fst p) i) c.

(** The iterations of a greedy star: [step] matches the body once.  One
    more iteration is tried first, and has to consume something; then the
    star stops and the continuation runs.  [fuel] is the length of the
    text, which no sequence of consuming iterations outlasts. *)
Fixpoint star_iter {A : Type}
    (step : jsstring -> caps -> (jsstring -> caps -> option A) -> option A)
    (k : jsstring -> caps -> option A)
    (fuel : nat) (s : jsstring) (c : caps) {struct fuel} : option A :=
  match fuel with
  | O => k s c
  | S fuel' =>
      match step s c (fun s' c' =>
              if (length s' <? length s)%nat then star_iter step k fuel' s' c' else None) with
      | Some x => Some x
      | None => k s c
      end
  end.

Fixpoint rmatch {A : Type} (r : regex) (s : jsstring) (c : caps)
    (k : jsstring -> caps -> option A) {struct r} : option A :=
  match r with
  | Eps => k s c
  | Cls p =>
      match s with
      | x :: s' => if p x then k s' c else None
      | [] => None
      end
  | Seq a b => rmatch a s c (fun s' c' => rmatch b s' c' k)
  | Alt a b =>
      match rmatch a s c k with
      | Some x => Some x
      | None => rmatch b s c k
      end
  | Star a => star_iter (fun s' c' k' => rmatch a s' c' k') k (length s) s c
  | Group i a =>
      rmatch a s c (fun s' c' => k s' ((i, take (length s - length s') s) :: c'))
  end.

(** Derived forms. *)
Definition Plus (r : regex) : regex := Seq r (Star r).
Definition Opt (r : regex) : regex := Alt r Eps.
Definition Chr (c : N) : regex := Cls (N.eqb c).
(** A letter under the [i] flag: an ASCII letter of the pattern matches
    its two cases only (a code unit above 127 never canonicalises to an
    ASCII one). *)
Definition ChrI (c : N) : regex := Cls (fun x => (ascii_lower x =? ascii_lower c)%N).
Definition Lit (s : jsstring) : regex := fold_right (fun c r => Seq (Chr c) r) Eps s.
Definition LitI (s : jsstring) : regex := fold_right (fun c r => Seq (ChrI c) r) Eps s.
(** [.] *)
Definition Dot : regex := Cls (fun x => negb (is_line_terminator x)).
Definition alts (rs : list regex) : regex :=
  match rs with
  | [] => Cls (fun _ => false)
  | r :: rs' => fold_left Alt rs' r
  end.

Record match_result : Type := MatchResult {
  m_index : nat;
  m_text : jsstring;
  m_caps : caps;
  m_rest : jsstring
}.

(** A match that starts at the head of [s]. *)
Definition match_here (r : regex) (s : jsstring) : option (jsstring * caps) :=
  rmatch r s [] (fun rest c => Some (rest, c)).

(** [r.exec(s)] without the [g] flag: the leftmost match. *)
Fixpoint exec_from (r : regex) (idx : nat) (s : jsstring) : option match_result :=
  match match_here r s with
  | Some (rest, c) =>
      Some (MatchResult idx (take (length s - length rest) s) c rest)
  | None =>
      match s with
      | [] => None
      | _ :: s' => exec_from r (S idx) s'
      end
  end.

Definition exec (r : regex) (s : jsstring) : option match_result := exec_from r 0 s.

(** [r.test(s)] *)
Definition test (r : regex) (s : jsstring) : bool := bool_decide (is_Some (exec r s)).

(** [s.replace(r, rep)] for a global [r] and a replacement text without
    dollar patterns: every match, left to right; after an empty match the
    scan steps over one code unit. *)
Fixpoint replace_all_fuel (fuel : nat) (r : regex) (rep s : jsstring) : jsstring :=
  match fuel with
  | O => s
  | S fuel' =>
      let step :=
        match s with
        | [] => []
        | x :: s' => x :: replace_all_fuel fuel' r rep s'
        end in
      match match_here r s with
      | Some (rest, _) =>
          if (length rest <? length s)%nat
          then rep ++ replace_all_fuel fuel' r rep rest
          else rep ++ step
      | None => step
      end
  end.

Definition replace_all (r : regex) (rep s : jsstring) : jsstring :=
  replace_all_fuel (S (length s)) r rep s.

End Regex.

(** ** Completions

    A call either returns a value or throws an [Error] with a message. *)

Inductive completion (A : Type) : Type :=
| Normal (a : A)
| Throw (message : list N).
Arguments Normal {A} a.
Arguments Throw {A} message.

(** ** utils/helpers.js *)

Module Helpers.
Import JS Regex.

Definition chr (a : Ascii.ascii) : N := Ascii.N_of_ascii a.
Arguments chr a%_char.

(** [/[^A-Z0-9\s]/g] *)
Definition re_not_upper_digit_space : regex :=
  Cls (fun c => negb (is_upper c || is_digit c || is_space c)).

(** [/\s+/g] *)
Definition re_spaces : regex := Plus (Cls is_space).

Section BranchName.
Variable unicode_upper : jsstring -> jsstring.

Definition sanitize (s : jsstring) : jsstring :=
  replace_all re_spaces (str "_")
    (replace_all re_not_upper_digit_space []
       (toUpperCase unicode_upper (trim s))).

Definition generateBranchName (teamName leaderName : jsstring) : jsstring :=
  sanitize teamName ++ str "_" ++ sanitize leaderName ++ str "_AI_Fix".

End BranchName.

Record repo_ref : Type := RepoRef { owner : jsstring; repo : jsstring }.

(** [/github\.com\/([^/]+)\/([^/.]+)/] *)
Definition re_repo_url : regex :=
  Seq (Lit (str "github.com/"))
   (Seq (Group 1 (Plus (Cls (fun c => negb (c =? chr "/")%N))))
    (Seq (Chr (chr "/"))
         (Group 2 (Plus (Cls (fun c => negb ((c =? chr "/")%N || (c =? chr ".")%N))))))).

Definition parseRepoUrl (url : jsstring) : completion repo_ref :=
  match exec re_repo_url url with
  | None => Throw (str "Invalid GitHub repo URL: " ++ url)
  | Some m =>
      Normal (RepoRef (default [] (cap 1 (m_caps m))) (default [] (cap 2 (m_caps m))))
  end.

End Helpers.

(** ** utils/scoring.js

    The counts and the elapsed milliseconds are integers; [Z] is exact for
    them. *)

Module Scoring.

Record metrics : Type := Metrics {
  totalTime : Z;
  commitCount : Z;
  fixCount : Z;
  iterationCount : Z
}.

Record breakdown : Type := Breakdown {
  base : Z;
  speedBonus : Z;
  fixBonus : Z;
  commitPenalty : Z;
  iterationPenalty : Z;
  total : Z
}.

Definition computeScore (m : metrics) : breakdown :=
  let base := 100%Z in
  let speedBonus := if (totalTime m <? 300000)%Z then 10%Z else 0%Z in
  let fixBonus := (Z.min (fixCount m) 20 * 2)%Z in
  let commitPenalty :=
    if (commitCount m >? 20)%Z then ((commitCount m - 20) * 2)%Z else 0%Z in
  let iterPenalty :=
    if (iterationCount m >? 3)%Z then ((iterationCount m - 3) * 5)%Z else 0%Z in
  let total := (base + speedBonus + fixBonus - commitPenalty - iterPenalty)%Z in
  {| base := base;
     speedBonus := speedBonus;
     fixBonus := fixBonus;
     commitPenalty := (- commitPenalty)%Z;
     iterationPenalty := (- iterPenalty)%Z;
     total := Z.max total 0 |}.

End Scoring.

(** ** utils/classifier.js *)

Module Classifier.
Import JS Regex Helpers.

Inductive bug_type : Type :=
| SYNTAX | LINTING | LOGIC | TYPE_ERROR | IMPORT | INDENTATION | RUNTIME | UNKNOWN.

#[global] Instance bug_type_eq_dec : EqDecision bug_type.
Proof. solve_decision. Defined.

(** The values of [BUG_TYPES]. *)
Definition bug_type_name (t : bug_type) : jsstring :=
  match t with
  | SYNTAX => str "SYNTAX"
  | LINTING => str "LINTING"
  | LOGIC => str "LOGIC"
  | TYPE_ERROR => str "TYPE_ERROR"
  | IMPORT => str "IMPORT"
  | INDENTATION => str "INDENTATION"
  | RUNTIME => str "RUNTIME"
  | UNKNOWN => str "UNKNOWN"
  end.

(** The [i]-flagged patterns, in declaration order. *)
Definition PATTERNS : list (regex * bug_type) :=
  [ (alts [LitI (str "SyntaxError"); LitI (str "unexpected token");
           LitI (str "invalid syntax"); LitI (str "EOL while scanning")], SYNTAX);
    (alts [LitI (str "IndentationError"); LitI (str "unexpected indent");
           LitI (str "expected an indented block")], INDENTATION);
    (alts [LitI (str "TypeError");
           Seq (LitI (str "type")) (Seq (Star Dot) (LitI (str "mismatch")));
           LitI (str "cannot read propert")], TYPE_ERROR);
    (alts [LitI (str "ImportError"); LitI (str "ModuleNotFoundError");
           LitI (str "Cannot find module"); LitI (str "no module named")], IMPORT);
    (alts [LitI (str "AssertionError");
           Seq (LitI (str "Expected")) (Seq (Star Dot) (Seq (LitI (str "to "))
             (Group 1 (alts [LitI (str "equal"); LitI (str "be"); LitI (str "match")]))));
           LitI (str "assert")], LOGIC);
    (alts [LitI (str "eslint"); LitI (str "lint"); LitI (str "prettier");
           Seq (LitI (str "warning")) (Seq (Star Dot) (LitI (str "rule")))], LINTING);
    (alts [LitI (str "ReferenceError"); LitI (str "NameError");
           LitI (str "is not defined")], RUNTIME) ].

Fixpoint first_match (ps : list (regex * bug_type)) (errorLine : jsstring) : bug_type :=
  match ps with
  | [] => UNKNOWN
  | (re, t) :: ps' => if test re errorLine then t else first_match ps' errorLine
  end.

Definition classifyError (errorLine : jsstring) : bug_type :=
  first_match PATTERNS errorLine.

Record location : Type := Location { loc_file : option jsstring; loc_line : option N }.

Definition digit : regex := Cls is_digit.

(** The Python form: the word File, a quoted path (group 1: one or more
    units other than the quote, unit 34), then [, line ] and digits
    (group 2). *)
Definition re_python_location : regex :=
  Seq (Lit (str "File "))
   (Seq (Chr 34)
    (Seq (Group 1 (Plus (Cls (fun c => negb (c =? 34)%N))))
     (Seq (Chr 34)
      (Seq (Lit (str ", line ")) (Group 2 (Plus digit)))))).

(** [/(?:at .+\()?([^\s(]+):(\d+):\d+\)?/] *)
Definition re_js_location : regex :=
  Seq (Opt (Seq (Lit (str "at ")) (Seq (Plus Dot) (Chr (chr "(")))))
   (Seq (Group 1 (Plus (Cls (fun c => negb (is_space c || (c =? chr "(")%N)))))
    (Seq (Chr (chr ":"))
     (Seq (Group 2 (Plus digit))
      (Seq (Chr (chr ":"))
       (Seq (Plus digit) (Opt (Chr (chr ")")))))))).

(** [/([^\s:]+\.\w+):(\d+)/] *)
Definition re_generic_location : regex :=
  Seq (Group 1 (Seq (Plus (Cls (fun c => negb (is_space c || (c =? chr ":")%N))))
                (Seq (Chr (chr ".")) (Plus (Cls is_word)))))
   (Seq (Chr (chr ":")) (Group 2 (Plus digit))).

Definition location_of (m : match_result) : location :=
  Location (Some (default [] (cap 1 (m_caps m))))
           (Some (parseInt_digits (default [] (cap 2 (m_caps m))))).

Definition extractLocation (errorLine : jsstring) : location :=
  match exec re_python_location errorLine with
  | Some m => location_of m
  | None =>
      match exec re_js_location errorLine with
      | Some m => location_of m
      | None =>
          match exec re_generic_location errorLine with
          | Some m => location_of m
          | None => Location None None
          end
      end
  end.

Record error_record : Type := ErrorRecord {
  bugType : bug_type;
  file : option jsstring;
  lineNumber : option N;
  rawMessage : jsstring
}.

(** The template [`${file}:${lineNum}:${bugType}`]; [null] prints as
    [null]. *)
Definition dedup_key (f : option jsstring) (l : option N) (t : bug_type) : jsstring :=
  default (str "null") f ++ str ":" ++
  default (str "null") (string_of_N <$> l) ++ str ":" ++ bug_type_name t.

(** The state of the loop of [parseErrorLog]: the [seen] set and the
    [errors] array. *)
Definition parse_step (st : gset (list N) * list error_record) (line : jsstring)
    : gset (list N) * list error_record :=
  let '(seen, errors) := st in
  let bugType := classifyError line in
  if bool_decide (bugType = UNKNOWN)
     && negb (includes (str "Error") line) && negb (includes (str "FAIL") line)
  then st
  else
    let loc := extractLocation line in
    let key := dedup_key (loc_file loc) (loc_line loc) bugType in
    if bool_decide (key ∈ seen) then st
    else ({[ key ]} ∪ seen,
          errors ++ [ErrorRecord bugType (loc_file loc) (loc_line loc) (trim line)]).

(** The lines the loop walks: the log split at line feeds, without the
    lines whose trimmed text is empty. *)
Definition log_lines (rawLog : jsstring) : list jsstring :=
  List.filter (fun l => truthy_str (trim l)) (split_on 10 rawLog).

Definition parseErrorLog (rawLog : jsstring) : list error_record :=
  snd (fold_left parse_step (log_lines rawLog) (∅, [])).

End Classifier.

(** ** The file system and [path.resolve]

    The working tree lives in a map from absolute paths to nodes.  Reads
    and writes of regular files succeed; a directory cannot be read or
    written as a file. *)

Module FileSystem.
Import JS Helpers.

Inductive node : Type :=
| File (content : list N)
| Dir.

Abbreviation FS := (gmap (list N) node).

(** The segments of a normalised POSIX path: empty segments and [.] are
    dropped, [..] pops. *)
Fixpoint normalize_segments (acc : list jsstring) (segs : list jsstring) : list jsstring :=
  match segs with
  | [] => rev acc
  | seg :: segs' =>
      if eqb_str seg [] || eqb_str seg (str ".") then normalize_segments acc segs'
      else if eqb_str seg (str "..") then normalize_segments (tail acc) segs'
      else normalize_segments (seg :: acc) segs'
  end.

Definition is_absolute (p : jsstring) : bool := starts_with (str "/") p.

Section Resolve.
(** [process.cwd()], an absolute path. *)
Variable cwd : jsstring.

(** [path.resolve(a, b)] of Node on POSIX. *)
Definition path_resolve (a b : jsstring) : jsstring :=
  let segs :=
    if is_absolute b then split_on (chr "/") b
    else if is_absolute a then split_on (chr "/") a ++ split_on (chr "/") b
    else split_on (chr "/") cwd ++ split_on (chr "/") a ++ split_on (chr "/") b in
  str "/" ++ join (str "/") (normalize_segments [] segs).

End Resolve.

Definition pathExists (fs : FS) (p : jsstring) : bool := bool_decide (is_Some (fs !! p)).

Definition readFile (fs : FS) (p : jsstring) : completion jsstring :=
  match fs !! p with
  | Some (File c) => Normal c
  | Some Dir => Throw (str "EISDIR: illegal operation on a directory, read")
  | None => Throw (str "ENOENT: no such file or directory, open")
  end.

Definition writeFile (fs : FS) (p content : jsstring) : completion FS :=
  match fs !! p with
  | Some Dir => Throw (str "EISDIR: illegal operation on a directory, open")
  | _ => Normal (<[ p := File content ]> fs)
  end.

(** [p] is [dir] or lies below it. *)
Definition within (dir p : jsstring) : bool :=
  eqb_str p dir || starts_with (dir ++ str "/") p.

(** [fs.ensureDir(dir)] *)
Definition ensureDir (fs : FS) (dir : jsstring) : completion FS :=
  match fs !! dir with
  | Some (File _) => Throw (str "EEXIST: file already exists, mkdir")
  | Some Dir => Normal fs
  | None => Normal (<[ dir := Dir ]> fs)
  end.

(** [fs.remove(dir)]: the directory and everything below it. *)
Definition remove (fs : FS) (dir : jsstring) : FS :=
  filter (fun kv => within dir (fst kv) = false) fs.

(** [fs.emptyDir(dir)]: the directory stays, its entries go. *)
Definition emptyDir (fs : FS) (dir : jsstring) : FS :=
  <[ dir := Dir ]> (remove fs dir).

End FileSystem.

(** ** agents/fixer.js (the variant with the model fallback chain) *)

Module Fixer.
Import JS Regex Helpers FileSystem.

(** A proposal as [JSON.parse] yields it: the fields have the types of the
    schema the prompt demands, and each may be missing ([None]). *)
Record fix_proposal : Type := FixProposal {
  file : option jsstring;
  lineNumber : option Z;
  bugType : option jsstring;
  description : option jsstring;
  originalCode : option jsstring;
  fixedCode : option jsstring;
  commitMessage : option jsstring
}.

Inductive fix_status : Type := Fixed | Failed | Skipped.

#[global] Instance fix_status_eq_dec : EqDecision fix_status.
Proof. solve_decision. Defined.

(** [{ ...fix, status, reason }] *)
Record applied_fix : Type := AppliedFix {
  proposal : fix_proposal;
  status : fix_status;
  reason : option jsstring
}.

(** *** [_invokeWithFallback] *)

Definition FALLBACK_MODELS (GEMINI_MODEL : option jsstring) : list jsstring :=
  [ match GEMINI_MODEL with Some (c :: m) => c :: m | _ => str "gemini-2.5-flash-lite" end;
    str "gemini-2.5-flash";
    str "gemini-2.0-flash-lite" ].

Definition is429 (message : jsstring) : bool :=
  includes (str "429") message || includes (str "quota") message
  || includes (str "Too Many Requests") message.

Inductive model_outcome : Type :=
| Responded (content : list N)
| Exhausted
| Errored (message : list N).

(** The inner loop, [for (let attempt = 1; attempt <= 3; attempt++)];
    [llm attempt] is what [llm.invoke(messages)] does at that attempt. *)
Fixpoint try_model (llm : nat -> completion jsstring) (attempt fuel : nat) : model_outcome :=
  match fuel with
  | O => Exhausted
  | S fuel' =>
      match llm attempt with
      | Normal content => Responded content
      | Throw message =>
          if is429 message && (attempt <? 3)%nat then try_model llm (S attempt) fuel'
          else if is429 message then Exhausted
          else Errored message
      end
  end.

Definition all_exhausted_message : jsstring :=
  str "All Gemini models exhausted " ++ [0x2014%N] ++ str " rate limited on every fallback".

Fixpoint invoke_models (llm : jsstring -> nat -> completion jsstring)
    (models : list jsstring) : completion jsstring :=
  match models with
  | [] => Throw all_exhausted_message
  | model :: models' =>
      match try_model (llm model) 1 3 with
      | Responded content => Normal content
      | Exhausted => invoke_models llm models'
      | Errored message => Throw message
      end
  end.

Definition _invokeWithFallback (GEMINI_MODEL : option jsstring)
    (llm : jsstring -> nat -> completion jsstring) : completion jsstring :=
  invoke_models llm (FALLBACK_MODELS GEMINI_MODEL).

(** *** [generateFixes] *)

(** [/\[[\s\S]*\]/] *)
Definition re_json_array : regex :=
  Seq (Chr (chr "[")) (Seq (Star (Cls (fun c => is_space c || negb (is_space c)))) (Chr (chr "]"))).

(** [x || 1] on a line number of the classifier. *)
Definition line_or_1 (l : option N) : Z :=
  match l with
  | Some n => if (n =? 0)%N then 1%Z else Z.of_N n
  | None => 1%Z
  end.

(** The numbered lines around the error, [lines.slice(start, end)]. *)
Definition number_lines (start : nat) (ls : list jsstring) : list jsstring :=
  imap (fun i l => string_of_N (N.of_nat (start + i + 1)) ++ str ": " ++ l) ls.

Definition source_context (content : jsstring) (l : option N) : jsstring :=
  let lines := split_on 10 content in
  let start := Z.to_nat (Z.max 0 (line_or_1 l - 5)) in
  let stop := Z.to_nat (Z.min (Z.of_nat (length lines)) (line_or_1 l + 5)) in
  join [10%N]
       (number_lines start (take (stop - start) (drop start lines))).

(** The placeholder the [catch] block builds for a classified error. *)
Definition placeholder (e : Classifier.error_record) : fix_proposal :=
  {| file := Classifier.file e;
     lineNumber := Z.of_N <$> Classifier.lineNumber e;
     bugType := Some (Classifier.bug_type_name (Classifier.bugType e));
     description := Some (Classifier.rawMessage e);
     originalCode := Some [];
     fixedCode := Some [];
     commitMessage :=
       Some (str "[AI-AGENT] Fix " ++ Classifier.bug_type_name (Classifier.bugType e)
             ++ str " error in "
             ++ match Classifier.file e with
                | Some (c :: f) => c :: f
                | _ => str "unknown"
                end
             ++ str " line "
             ++ match Classifier.lineNumber e with
                | Some n => if (n =? 0)%N then str "?" else string_of_N n
                | None => str "?"
                end) |}.

Section Agent.
Variable cwd : jsstring.
(** [JSON.parse], the engine's, on the text of the matched array. *)
Variable JSON_parse : jsstring -> completion (list fix_proposal).
Variable GEMINI_MODEL : option jsstring.

(** The source context of one error: the file is read when the error has
    a file and the path exists; a failing read rejects the whole
    [Promise.all]. *)
Definition gather_context (fs : FS) (repoDir : jsstring) (e : Classifier.error_record)
    : completion jsstring :=
  match Classifier.file e with
  | Some (c :: f) =>
      let filePath := path_resolve cwd repoDir (c :: f) in
      if pathExists fs filePath then
        match readFile fs filePath with
        | Normal content => Normal (source_context content (Classifier.lineNumber e))
        | Throw m => Throw m
        end
      else Normal []
  | _ => Normal []
  end.

Fixpoint gather_contexts (fs : FS) (repoDir : jsstring) (es : list Classifier.error_record)
    : completion (list jsstring) :=
  match es with
  | [] => Normal []
  | e :: es' =>
      match gather_context fs repoDir e with
      | Throw m => Throw m
      | Normal ctx =>
          match gather_contexts fs repoDir es' with
          | Throw m => Throw m
          | Normal ctxs => Normal (ctx :: ctxs)
          end
      end
  end.

(** The [try] block and its [catch]: what [fixes] holds afterwards.  The
    oracle [llm] gives the outcome of each [llm.invoke] by model and
    attempt; the text of the prompt does not steer the control flow. *)
Definition fixes_of_llm (llm : jsstring -> nat -> completion jsstring)
    (parsedErrors : list Classifier.error_record) : list fix_proposal :=
  match _invokeWithFallback GEMINI_MODEL llm with
  | Normal response =>
      let content := trim response in
      match exec re_json_array content with
      | Some jsonMatch =>
          match JSON_parse (m_text jsonMatch) with
          | Normal fixes => fixes
          | Throw _ => map placeholder parsedErrors
          end
      | None => []
      end
  | Throw _ => map placeholder parsedErrors
  end.

Definition generateFixes (llm : jsstring -> nat -> completion jsstring)
    (fs : FS) (errorOutput repoDir : jsstring) : completion (list fix_proposal) :=
  let parsedErrors := Classifier.parseErrorLog errorOutput in
  match gather_contexts fs repoDir parsedErrors with
  | Throw m => Throw m
  | Normal _ => Normal (fixes_of_llm llm parsedErrors)
  end.

(** *** [applyFixes] *)

Definition falsy (o : option jsstring) : bool :=
  match o with
  | Some (_ :: _) => false
  | _ => true
  end.

(** [lines[i] = v] on a JavaScript array: an index inside the array
    overwrites, an index past the end extends it (the holes join as empty
    strings), and a negative index adds a property and leaves the elements
    alone. *)
Definition array_set (lines : list jsstring) (i : Z) (v : jsstring) : list jsstring :=
  if (i <? 0)%Z then lines
  else if (Z.to_nat i <? length lines)%nat then <[ Z.to_nat i := v ]> lines
  else lines ++ replicate (Z.to_nat i - length lines) [] ++ [v].

(** Index of the first occurrence of [p] in [s]. *)
Fixpoint index_of (p s : jsstring) : option nat :=
  if starts_with p s then Some 0%nat
  else match s with
       | [] => None
       | _ :: s' => S <$> index_of p s'
       end.

(** The dollar patterns of a replacement text when the pattern is a
    string (no captures): the dollar sign, the text before the match, the
    match, the text after it. *)
Fixpoint expand_replacement (before matched after rep : jsstring) : jsstring :=
  match rep with
  | [] => []
  | c :: rep' =>
      if (c =? 36)%N then
        match rep' with
        | d :: rep'' =>
            if (d =? 36)%N then 36%N :: expand_replacement before matched after rep''
            else if (d =? 96)%N then before ++ expand_replacement before matched after rep''
            else if (d =? 38)%N then matched ++ expand_replacement before matched after rep''
            else if (d =? 39)%N then after ++ expand_replacement before matched after rep''
            else c :: expand_replacement before matched after rep'
        | [] => [c]
        end
      else c :: expand_replacement before matched after rep'
  end.

(** [content.replace(pattern, rep)] for a string pattern: the first
    occurrence only. *)
Definition replace_first (content pattern rep : jsstring) : jsstring :=
  match index_of pattern content with
  | None => content
  | Some i =>
      let before := take i content in
      let after := drop (i + length pattern) content in
      before ++ expand_replacement before pattern after rep ++ after
  end.

Definition applied (fx : fix_proposal) (st : fix_status) (why : option jsstring) : applied_fix :=
  AppliedFix fx st why.

(** One turn of the loop of [applyFixes]. *)
Definition apply_fix (fs : FS) (repoDir : jsstring) (fx : fix_proposal) : FS * applied_fix :=
  if falsy (file fx) || falsy (originalCode fx) || falsy (fixedCode fx)
  then (fs, applied fx Skipped None)
  else
    let filePath := path_resolve cwd repoDir (default [] (file fx)) in
    let original := default [] (originalCode fx) in
    let fixed := default [] (fixedCode fx) in
    if negb (pathExists fs filePath)
    then (fs, applied fx Failed (Some (str "File not found")))
    else
      match readFile fs filePath with
      | Throw m => (fs, applied fx Failed (Some m))
      | Normal content =>
          if negb (includes original content) then
            let lines := split_on 10 content in
            match lineNumber fx with
            | Some n =>
                if negb (n =? 0)%Z && (n <=? Z.of_nat (length lines))%Z then
                  let lines' := array_set lines (n - 1) fixed in
                  match writeFile fs filePath (join [10%N] lines') with
                  | Normal fs' => (fs', applied fx Fixed None)
                  | Throw m => (fs, applied fx Failed (Some m))
                  end
                else (fs, applied fx Failed (Some (str "Original code not found")))
            | None => (fs, applied fx Failed (Some (str "Original code not found")))
            end
          else
            match writeFile fs filePath (replace_first content original fixed) with
            | Normal fs' => (fs', applied fx Fixed None)
            | Throw m => (fs, applied fx Failed (Some m))
            end
      end.

(** [applyFixes]: the proposals in input order, each on the tree the
    previous ones left. *)
Fixpoint applyFixes (fs : FS) (fixes : list fix_proposal) (repoDir : jsstring)
    : FS * list applied_fix :=
  match fixes with
  | [] => (fs, [])
  | fx :: fixes' =>
      let '(fs1, r) := apply_fix fs repoDir fx in
      let '(fs2, rs) := applyFixes fs1 fixes' repoDir in
      (fs2, r :: rs)
  end.

End Agent.

End Fixer.

(** ** utils/docker.js

    The daemon, the child process and the timer are the environment: each
    call into them is given by its outcome. *)

Module Docker.
Import JS Helpers.

(** [exitCode] is a number, or the string code of a spawn error. *)
Inductive exit_code : Type :=
| ExitNum (n : Z)
| ExitStr (s : list N).

Record exec_result : Type := ExecResult {
  exitCode : exit_code;
  stdout : jsstring;
  stderr : jsstring
}.

Definition MAX_OUTPUT : N := 50000.

Definition TIMEOUT_MARKER : jsstring :=
  str "TIMEOUT: Command execution exceeded time limit".

(** *** [_runNative] *)

(** [error.code] of the callback of [child_process.exec]. *)
Inductive error_code : Type :=
| CodeNumber (n : Z)
| CodeNull
| CodeString (s : list N).

Record exec_error : Type := ExecError {
  code : error_code;
  killed : bool;
  signal : option jsstring
}.

(** The arguments [(error, stdout, stderr)] of the callback. *)
Record exec_callback : Type := ExecCallback {
  cb_error : option exec_error;
  cb_stdout : option jsstring;
  cb_stderr : option jsstring
}.

(** [error.code || 1] *)
Definition code_or_1 (c : error_code) : exit_code :=
  match c with
  | CodeNumber n => if (n =? 0)%Z then ExitNum 1 else ExitNum n
  | CodeNull => ExitNum 1
  | CodeString [] => ExitNum 1
  | CodeString s => ExitStr s
  end.

(** [out?.slice(-MAX_OUTPUT) || ""] *)
Definition tail_or_empty (out : option jsstring) : jsstring :=
  match out with
  | Some s => slice_last MAX_OUTPUT s
  | None => []
  end.

Definition _runNative (cb : exec_callback) : exec_result :=
  let exitCode :=
    match cb_error cb with
    | Some e => code_or_1 (code e)
    | None => ExitNum 0
    end in
  ExecResult exitCode (tail_or_empty (cb_stdout cb)) (tail_or_empty (cb_stderr cb)).

(** What Node hands to the callback when the [timeout] option expires: the
    child got the kill signal, so there is no exit code, and the streams
    hold what the child wrote until then. *)
Definition timeout_callback (out err : jsstring) : exec_callback :=
  ExecCallback (Some (ExecError CodeNull true (Some (str "SIGTERM")))) (Some out) (Some err).

(** *** [_runInDockerContainer] *)

(** [Promise.race([waitPromise, timeoutPromise])] *)
Inductive race_outcome : Type :=
| WaitResolved (StatusCode : Z)
| WaitRejected (message : list N)
| TimerFired.

Record container_env : Type := ContainerEnv {
  inspect_image : completion unit;
  pull_image : completion unit;
  create_container : completion unit;
  attach : completion unit;
  start : completion unit;
  race : race_outcome;
  kill : completion unit;
  (** what [outputPromise] resolves to *)
  output_stdout : jsstring;
  output_stderr : jsstring;
  remove_container : completion unit
}.

(** The [try] block with its [catch]: the values of [exitCode], [stdout]
    and [stderr] at the [finally]. *)
Definition run_container (env : container_env) : exec_result :=
  match attach env with
  | Throw m => ExecResult (ExitNum 1) [] m
  | Normal _ =>
      match start env with
      | Throw m => ExecResult (ExitNum 1) [] m
      | Normal _ =>
          match race env with
          | TimerFired => ExecResult (ExitNum 124) [] TIMEOUT_MARKER
          | WaitResolved n => ExecResult (ExitNum n) (output_stdout env) (output_stderr env)
          | WaitRejected m => ExecResult (ExitNum 1) [] m
          end
      end
  end.

Definition truncate (s : jsstring) : jsstring :=
  if (MAX_OUTPUT <? N.of_nat (length s))%N then slice_last MAX_OUTPUT s else s.

Definition _runInDockerContainer (env : container_env) : completion exec_result :=
  let image_ready :=
    match inspect_image env with
    | Normal _ => Normal tt
    | Throw _ => pull_image env
    end in
  match image_ready with
  | Throw m => Throw m
  | Normal _ =>
      match create_container env with
      | Throw m => Throw m
      | Normal _ =>
          let r := run_container env in
          Normal (ExecResult (exitCode r) (truncate (stdout r)) (truncate (stderr r)))
      end
  end.

(** *** [runInDocker] *)

Inductive sandbox_env : Type :=
| DockerAvailable (env : container_env)
| DockerUnavailable (cb : exec_callback).

Definition runInDocker (env : sandbox_env) : completion exec_result :=
  match env with
  | DockerAvailable c => _runInDockerContainer c
  | DockerUnavailable cb => Normal (_runNative cb)
  end.

End Docker.

(** ** agents/analyzer.js *)

Module Analyzer.
Import JS Helpers FileSystem Docker.

Record test_result : Type := TestResult {
  passed : bool;
  test_exitCode : exit_code;
  output : jsstring
}.

(** [runTests]: passing is exit code 0; the log is the two streams joined
    by a line feed and trimmed. *)
Definition runTests (sandbox : sandbox_env) : completion test_result :=
  match runInDocker sandbox with
  | Throw m => Throw m
  | Normal r =>
      Normal (TestResult
                (match exitCode r with ExitNum 0 => true | _ => false end)
                (exitCode r)
                (trim (stdout r ++ [10%N] ++ stderr r)))
  end.

Section Clone.
Variable cwd : jsstring.

Definition tmp_dir (runId : jsstring) : jsstring := path_resolve cwd (str "tmp") runId.

(** What a successful [git clone] leaves in [dir]: the files of the
    remote repository, given by relative path. *)
Definition checkout (fs : FS) (dir : jsstring) (files : list (jsstring * jsstring)) : FS :=
  fold_right (fun f acc => <[ path_resolve cwd dir (fst f) := File (snd f) ]> acc) fs files.

(** [cloneRepo]: the tree afterwards, and the directory or the error. *)
Definition cloneRepo (fs : FS) (runId : jsstring)
    (shallow full : completion unit) (files : list (jsstring * jsstring))
    : FS * completion jsstring :=
  let tmpDir := tmp_dir runId in
  match ensureDir fs tmpDir with
  | Throw m => (fs, Throw m)
  | Normal fs1 =>
      match shallow with
      | Normal _ => (checkout fs1 tmpDir files, Normal tmpDir)
      | Throw _ =>
          let fs2 := emptyDir fs1 tmpDir in
          match full with
          | Normal _ => (checkout fs2 tmpDir files, Normal tmpDir)
          | Throw m => (fs2, Throw m)
          end
      end
  end.

Record analysis : Type := Analysis {
  repoDir : jsstring;
  analysis_passed : bool;
  analysis_output : jsstring
}.

(** [analyze]: clone, inspect the project ([detectProject] and
    [discoverTests], which only read), run the tests. *)
Definition analyze (fs : FS) (runId : jsstring)
    (shallow full : completion unit) (files : list (jsstring * jsstring))
    (inspect : completion unit) (sandbox : sandbox_env)
    : FS * completion analysis :=
  match cloneRepo fs runId shallow full files with
  | (fs1, Throw m) => (fs1, Throw m)
  | (fs1, Normal dir) =>
      match inspect with
      | Throw m => (fs1, Throw m)
      | Normal _ =>
          match runTests sandbox with
          | Throw m => (fs1, Throw m)
          | Normal t => (fs1, Normal (Analysis dir (passed t) (output t)))
          end
      end
  end.

End Clone.

End Analyzer.

(** ** agents/orchestrator.js *)

Module Orchestrator.
Import JS Helpers FileSystem.

Inductive run_status : Type :=
| PASSED | FAILED | NO_FIXES | APPLY_FAILED | CI_PASSED | ERROR.

#[global] Instance run_status_eq_dec : EqDecision run_status.
Proof. solve_decision. Defined.

(** A timeline entry, without its wall-clock timestamp. *)
Record iteration_record : Type := IterationRecord {
  iteration : Z;
  status : run_status
}.

(** The final report (the fields the properties speak of). *)
Record results : Type := Results {
  branch : jsstring;
  totalFailures : Z;
  totalFixes : Z;
  totalCommits : Z;
  finalStatus : run_status;
  totalTimeMs : Z;
  scoreBreakdown : Scoring.breakdown;
  fixes : list Fixer.applied_fix;
  timeline : list iteration_record
}.

(** The broadcasts of the Orchestrator itself, in order. *)
Inductive event : Type :=
| pipeline_start
| iteration_start (iteration : Z)
| pipeline_done (data : results).

(** The world of one run: the outcome of every call that leaves the
    process.  The calls made inside the fix loop are indexed by the
    iteration that makes them. *)
Record world : Type := World {
  clone_shallow : completion unit;
  clone_full : completion unit;
  remote_files : list (jsstring * jsstring);
  inspect_project : completion unit;
  (** [runInDocker] of the initial analysis *)
  first_sandbox : Docker.sandbox_env;
  (** [llm.invoke] by iteration, model and attempt *)
  llm : Z -> jsstring -> nat -> completion jsstring;
  (** [commitAndPush]: the number of commits, or the push error *)
  commit_and_push : Z -> list Fixer.applied_fix -> completion Z;
  (** [runInDocker] of the re-run of the tests *)
  retest_sandbox : Z -> Docker.sandbox_env;
  (** [monitorCI]: the [passed] field ([None] is [null]) *)
  monitor_ci : Z -> completion (option bool);
  (** [Date.now() - this.startTime] *)
  elapsed : Z;
  save_results : completion unit;
  remove_tree : completion unit
}.

(** The mutable fields of the Orchestrator, with the tree on disk. *)
Record state : Type := State {
  fs : FS;
  st_timeline : list iteration_record;
  allFixes : list Fixer.applied_fix;
  st_totalCommits : Z;
  st_totalFailures : Z;
  events : list event
}.

Definition addTimeline (st : state) (i : Z) (s : run_status) : state :=
  State (fs st) (st_timeline st ++ [IterationRecord i s]) (allFixes st)
        (st_totalCommits st) (st_totalFailures st) (events st).

Definition broadcast (st : state) (e : event) : state :=
  State (fs st) (st_timeline st) (allFixes st)
        (st_totalCommits st) (st_totalFailures st) (events st ++ [e]).

Definition count_fixed (l : list Fixer.applied_fix) : nat :=
  length (List.filter (fun f => bool_decide (Fixer.status f = Fixer.Fixed)) l).

(** How the [try] block ends: normally with the value of [finalStatus],
    or with a thrown error; in both cases with the value of the variable
    [iteration]. *)
Record try_end : Type := TryEnd {
  end_state : state;
  end_iteration : Z;
  end_status : run_status;
  thrown : option jsstring
}.

Section Run.
Variable unicode_upper : jsstring -> jsstring.
Variable cwd : jsstring.
Variable JSON_parse : jsstring -> completion (list Fixer.fix_proposal).
Variable GEMINI_MODEL : option jsstring.
Variable RETRY_LIMIT : Z.
Variable w : world.

(** The fix loop, [for (iteration = 1; iteration <= RETRY_LIMIT;
    iteration++)].  [fuel] bounds the number of turns from above. *)
Fixpoint fix_loop (fuel : nat) (iteration : Z) (repoDir currentOutput : jsstring)
    (st : state) : try_end :=
  match fuel with
  | O => TryEnd st iteration FAILED None
  | S fuel' =>
      if negb (iteration <=? RETRY_LIMIT)%Z then TryEnd st iteration FAILED None
      else
        let st := broadcast st (iteration_start iteration) in
        match Fixer.generateFixes cwd JSON_parse GEMINI_MODEL (llm w iteration)
                (fs st) currentOutput repoDir with
        | Throw m => TryEnd st iteration FAILED (Some m)
        | Normal [] => TryEnd (addTimeline st iteration NO_FIXES) iteration FAILED None
        | Normal proposals =>
            let '(fs', appliedFixes) := Fixer.applyFixes cwd (fs st) proposals repoDir in
            let st := State fs' (st_timeline st) (allFixes st ++ appliedFixes)
                            (st_totalCommits st) (st_totalFailures st) (events st) in
            if (count_fixed appliedFixes =? 0)%nat
            then TryEnd (addTimeline st iteration APPLY_FAILED) iteration FAILED None
            else
              match commit_and_push w iteration appliedFixes with
              | Throw m => TryEnd st iteration FAILED (Some m)
              | Normal commits =>
                  let st := State (fs st) (st_timeline st) (allFixes st)
                                  (st_totalCommits st + commits) (st_totalFailures st)
                                  (events st) in
                  match Analyzer.runTests (retest_sandbox w iteration) with
                  | Throw m => TryEnd st iteration FAILED (Some m)
                  | Normal retestResult =>
                      if Analyzer.passed retestResult
                      then TryEnd (addTimeline st iteration PASSED) iteration PASSED None
                      else
                        let st := State (fs st) (st_timeline st) (allFixes st)
                                        (st_totalCommits st) (st_totalFailures st + 1)
                                        (events st) in
                        let st := addTimeline st iteration FAILED in
                        match monitor_ci w iteration with
                        | Normal (Some true) =>
                            TryEnd (addTimeline st iteration CI_PASSED) iteration PASSED None
                        | _ =>
                            fix_loop fuel' (iteration + 1) repoDir
                                     (Analyzer.output retestResult) st
                        end
                  end
              end
        end
  end.

(** The [try] block of [run]; the second component is [repoDir]. *)
Definition try_block (runId : jsstring) (st : state) : try_end * option jsstring :=
  match Analyzer.analyze cwd (fs st) runId (clone_shallow w) (clone_full w)
          (remote_files w) (inspect_project w) (first_sandbox w) with
  | (fs1, Throw m) =>
      (TryEnd (State fs1 (st_timeline st) (allFixes st) (st_totalCommits st)
                     (st_totalFailures st) (events st)) 0 FAILED (Some m), None)
  | (fs1, Normal analysisResult) =>
      let st := State fs1 (st_timeline st) (allFixes st) (st_totalCommits st)
                      (st_totalFailures st) (events st) in
      let repoDir := Analyzer.repoDir analysisResult in
      let st := addTimeline st 0
                  (if Analyzer.analysis_passed analysisResult then PASSED else FAILED) in
      if Analyzer.analysis_passed analysisResult
      then (TryEnd st 0 PASSED None, Some repoDir)
      else
        let st := State (fs st) (st_timeline st) (allFixes st) (st_totalCommits st)
                        (st_totalFailures st + 1) (events st) in
        (fix_loop (Z.to_nat RETRY_LIMIT) 1 repoDir
                  (Analyzer.analysis_output analysisResult) st, Some repoDir)
  end.

(** The argument [buildResults] hands to [computeScore]. *)
Definition score_metrics (st : state) (totalTime : Z) : Scoring.metrics :=
  Scoring.Metrics totalTime (st_totalCommits st) (Z.of_nat (count_fixed (allFixes st)))
                  (Z.of_nat (length (st_timeline st)) - 1).

Definition buildResults (branchName : jsstring) (st : state)
    (finalStatus : run_status) (totalTime : Z) : results :=
  {| branch := branchName;
     totalFailures := st_totalFailures st;
     totalFixes := Z.of_nat (count_fixed (allFixes st));
     totalCommits := st_totalCommits st;
     finalStatus := finalStatus;
     totalTimeMs := totalTime;
     scoreBreakdown := Scoring.computeScore (score_metrics st totalTime);
     fixes := allFixes st;
     timeline := st_timeline st |}.

(** What is left when [run] has settled: the tree on disk, the
    broadcasts, the state at [buildResults], and the report [run] resolved
    with (or the error it rejected with). *)
Record run_end : Type := RunEnd {
  final_fs : FS;
  broadcasts : list event;
  report_state : state;
  settled : completion results
}.

Definition initial_state (fs0 : FS) : state := State fs0 [] [] 0 0 [].

Definition run (fs0 : FS) (runId repoUrl teamName leaderName : jsstring) : run_end :=
  let branchName := generateBranchName unicode_upper teamName leaderName in
  let st := broadcast (initial_state fs0) pipeline_start in
  match parseRepoUrl repoUrl with
  | Throw m => RunEnd (fs st) (events st) st (Throw m)
  | Normal _ =>
      let '(e, repoDir) := try_block runId st in
      let st :=
        match thrown e with
        | Some _ => addTimeline (end_state e) (end_iteration e) ERROR
        | None => end_state e
        end in
      let results := buildResults branchName st (end_status e) (elapsed w) in
      match save_results w with
      | Throw m => RunEnd (fs st) (events st) st (Throw m)
      | Normal _ =>
          let st' := broadcast st (pipeline_done results) in
          let fs_end :=
            match repoDir, remove_tree w with
            | Some dir, Normal _ => remove (fs st') dir
            | _, _ => fs st'
            end in
          RunEnd fs_end (events st') st (Normal results)
      end
  end.

End Run.

End Orchestrator.

(** ** routes/agent.js: [POST /api/run-agent] *)

Module Routes.
Import JS Helpers.



Inductive response_body : Type :=
| ValidationError (messages : list (list N))
| InvalidRepositoryURL (message : list N)
| Running (runId branch : list N).

Record response : Type := Response { status : Z; json : response_body }.




Section Handler.
Variable unicode_upper : jsstring -> jsstring.


End Handler.

End Routes.

(** * More of the code

    The functions the properties above did not need. *)

(** ** More of JavaScript's strings *)

Module Text.
Import JS.

(** [String(z)] for an integer. *)
Definition string_of_Z (z : Z) : jsstring :=
  match z with
  | Zneg p => 45%N :: string_of_N (Npos p)
  | _ => string_of_N (Z.to_N z)
  end.

Definition is_ascii (s : jsstring) : bool := forallb (fun c => (c <? 128)%N) s.

(** [String.prototype.toLowerCase].  On ASCII text it maps the letters A
    to Z.  On any other text the result is the engine's (the mapping of a
    capital sigma looks at its neighbours, ASCII letters included), so
    the whole text goes to the parameter. *)
Definition toLowerCase (unicode_lower : jsstring -> jsstring) (s : jsstring) : jsstring :=
  if is_ascii s then map ascii_lower s else unicode_lower s.

(** [names.includes(name)] on an array of strings. *)
Definition array_includes (names : list jsstring) (name : jsstring) : bool :=
  existsb (eqb_str name) names.

(** [a.filter(Boolean)] on an array of strings. *)
Definition filter_truthy (a : list jsstring) : list jsstring := List.filter truthy_str a.

End Text.

(** ** utils/helpers.js: the language table *)

Module Languages.
Import JS Text.

(** The five values [detectLanguage] returns. *)
Inductive language : Type := node | python | go | rust | java.

Record runtime : Type := Runtime {
  image : jsstring;
  testCmd : jsstring;
  installCmd : jsstring
}.

Section Detect.
Variable unicode_lower : jsstring -> jsstring.

Definition detectLanguage (files : list jsstring) : language :=
  let names := map (toLowerCase unicode_lower) files in
  if array_includes names (str "package.json") then node
  else if array_includes names (str "requirements.txt")
          || array_includes names (str "setup.py")
          || array_includes names (str "pyproject.toml") then python
  else if array_includes names (str "go.mod") then go
  else if array_includes names (str "cargo.toml") then rust
  else if array_includes names (str "pom.xml")
          || array_includes names (str "build.gradle") then java
  else node.

End Detect.

(** [getRuntime], on the languages [detectLanguage] returns (the only
    values the Analyzer passes). *)
Definition getRuntime (l : language) : runtime :=
  match l with
  | node => Runtime (str "node:18-alpine") (str "npm test") (str "npm ci --ignore-scripts")
  | python => Runtime (str "python:3.10-slim") (str "pytest -v")
                      (str "pip install -r requirements.txt")
  | go => Runtime (str "golang:1.21-alpine") (str "go test ./...") []
  | rust => Runtime (str "rust:1.75-slim") (str "cargo test") []
  | java => Runtime (str "maven:3.9-eclipse-temurin-17") (str "mvn test") []
  end.

(** The command [runTests] hands to the sandbox:
    [[installCmd, testCmd].filter(Boolean).join(" && ")]. *)
Definition fullCmd (rt : runtime) : jsstring :=
  join (str " && ") (filter_truthy [installCmd rt; testCmd rt]).

End Languages.

(** ** utils/scoring.js: [formatDuration] *)

Module Duration.
Import JS Text.

(** [Math.round(ms / 1000)] for an integer [ms]: halves go up. *)
Definition round_seconds (ms : Z) : Z := ((ms + 500) / 1000)%Z.

Definition formatDuration (ms : Z) : jsstring :=
  let totalSec := round_seconds ms in
  let min := (totalSec / 60)%Z in
  let sec := Z.rem totalSec 60 in
  if (min >? 0)%Z
  then string_of_Z min ++ str "m " ++ string_of_Z sec ++ str "s"
  else string_of_Z sec ++ str "s".

End Duration.

(** ** services/api.js: [transformResult], the score fields *)

Module Frontend.

Record score_view : Type := ScoreView {
  baseScore : Z;
  speedBonus : Z;
  efficiencyPenalty : Z;
  fixBonus : Z;
  iterationPenalty : Z;
  finalScore : Z
}.

(** [sb] is [r.scoreBreakdown || {}]: [None] is the report without a
    breakdown, whose fields all fall back to their defaults. *)
Definition score_fields (sb : option Scoring.breakdown) : score_view :=
  match sb with
  | Some b =>
      ScoreView (Scoring.base b) (Scoring.speedBonus b) (Z.abs (Scoring.commitPenalty b))
                (Scoring.fixBonus b) (Z.abs (Scoring.iterationPenalty b)) (Scoring.total b)
  | None => ScoreView 100 0 0 0 0 0
  end.

(** The status column of the fixes table. *)
Inductive row_status : Type := RowPASSED | RowFAILED.

Definition fix_row_status (s : Fixer.fix_status) : row_status :=
  match s with
  | Fixer.Fixed => RowPASSED
  | _ => RowFAILED
  end.

End Frontend.

(** ** agents/analyzer.js: the clone URL and the discovery of tests *)

Module Discovery.
Import JS Regex Helpers Text Languages.

(** The URL [cloneRepo] hands to git: the token goes in after the scheme
    when there is one and the URL is an https one. *)
Definition clone_url (GITHUB_TOKEN : option jsstring) (repoUrl : jsstring) : jsstring :=
  match GITHUB_TOKEN with
  | Some (c :: t) =>
      if starts_with (str "https://") repoUrl
      then Fixer.replace_first repoUrl (str "https://")
             (str "https://" ++ (c :: t) ++ str "@")
      else repoUrl
  | _ => repoUrl
  end.








End Discovery.

(** ** agents/committer.js

    Git is the environment.  Every call into it is written to a log, in
    order, and its outcome is given: it returns or it throws. *)

Module Committer.
Import JS Helpers Text.

Inductive git_command : Type :=
| BranchLocal
| Checkout (branch : list N)
| CheckoutLocalBranch (branch : list N)
| AddConfig (key value : list N)
| Add (file : list N)
| Commit (message : list N)
| GetRemotes
| RemoteSetUrl (url : list N)
| Push (remote branch : list N) (options : list (list N)).

Record git_env : Type := GitEnv {
  (** [branches.all] of [git.branchLocal()] *)
  branchLocal : completion (list jsstring);
  checkout : jsstring -> completion unit;
  addConfig : completion unit;
  add : jsstring -> completion unit;
  (** [git.commit], by the file the commit is for *)
  commit : jsstring -> completion unit;
  (** the push URL of the remote [origin], if there is one *)
  getRemotes : completion (option jsstring);
  remoteSetUrl : completion unit;
  push : completion unit
}.

(** A computation that talks to git: it extends the log and returns or
    throws. *)
Definition git (A : Type) : Type := list git_command -> list git_command * completion A.

Definition ret {A : Type} (a : A) : git A := fun log => (log, Normal a).

Definition bind {A B : Type} (m : git A) (k : A -> git B) : git B :=
  fun log =>
    match m log with
    | (log', Normal a) => k a log'
    | (log', Throw e) => (log', Throw e)
    end.

(** One call into git. *)
Definition call {A : Type} (c : git_command) (outcome : completion A) : git A :=
  fun log => (log ++ [c], outcome).

(** [try { m } catch (err) { h(err) }] *)
Definition try_catch {A : Type} (m : git A) (h : jsstring -> git A) : git A :=
  fun log =>
    match m log with
    | (log', Normal a) => (log', Normal a)
    | (log', Throw e) => h e log'
    end.

Notation "'let*' x ':=' m 'in' k" := (bind m (fun x => k))
  (at level 10, x name, m at level 100, k at level 200).

Section Agent.
Variable env : git_env.

Definition ensureBranch (branchName : jsstring) : git jsstring :=
  let* all := call BranchLocal (branchLocal env) in
  let* _ := if array_includes all branchName
            then call (Checkout branchName) (checkout env branchName)
            else call (CheckoutLocalBranch branchName) (checkout env branchName) in
  ret branchName.

(** The names every plain object inherits: [byFile[name]] is truthy for
    them before anything was stored. *)
Definition inherited (name : jsstring) : bool :=
  array_includes
    [ str "constructor"; str "__defineGetter__"; str "__defineSetter__";
      str "hasOwnProperty"; str "__lookupGetter__"; str "__lookupSetter__";
      str "isPrototypeOf"; str "propertyIsEnumerable"; str "toString";
      str "valueOf"; str "__proto__"; str "toLocaleString" ] name.

(** The property key a field makes: a missing one prints as
    [undefined]. *)
Definition key_of (o : option jsstring) : jsstring := default (str "undefined") o.

Definition is_fixed (f : Fixer.applied_fix) : bool :=
  bool_decide (Fixer.status f = Fixer.Fixed).

(** [byFile[key].push(fix)], the key being there or not. *)
Fixpoint push_to (key : jsstring) (f : Fixer.applied_fix)
    (byFile : list (jsstring * list Fixer.applied_fix))
    : list (jsstring * list Fixer.applied_fix) :=
  match byFile with
  | [] => [(key, [f])]
  | (k, fs) :: rest =>
      if eqb_str k key then (k, fs ++ [f]) :: rest
      else (k, fs) :: push_to key f rest
  end.

(** The grouping loop.  A file named like an inherited property finds a
    truthy value that is no array, and the [push] throws. *)
Fixpoint group_by_file (items : list Fixer.applied_fix)
    (byFile : list (jsstring * list Fixer.applied_fix))
    : completion (list (jsstring * list Fixer.applied_fix)) :=
  match items with
  | [] => Normal byFile
  | f :: items' =>
      let key := key_of (Fixer.file (Fixer.proposal f)) in
      if inherited key then Throw (str "byFile[fix.file].push is not a function")
      else group_by_file items' (push_to key f byFile)
  end.

(** An array index: the canonical decimal form of an integer below
    2^32 - 1. *)
Definition array_index (key : jsstring) : option N :=
  if truthy_str key && forallb is_digit key
     && eqb_str (string_of_N (parseInt_digits key)) key
     && (parseInt_digits key <? 4294967295)%N
  then Some (parseInt_digits key) else None.

Fixpoint insert_by_index {A : Type} (i : N) (x : A) (l : list (N * A)) : list (N * A) :=
  match l with
  | [] => [(i, x)]
  | (j, y) :: l' => if (i <? j)%N then (i, x) :: l else (j, y) :: insert_by_index i x l'
  end.

(** [Object.entries]: the array-index keys in ascending order, then the
    other keys in insertion order. *)
Definition entries {A : Type} (o : list (jsstring * A)) : list (jsstring * A) :=
  map snd (fold_right (fun kv acc =>
             match array_index (fst kv) with
             | Some i => insert_by_index i kv acc
             | None => acc
             end) [] o)
  ++ List.filter (fun kv => bool_decide (array_index (fst kv) = None)) o.

(** [x || "?"] on a line number. *)
Definition line_or_question (l : option Z) : jsstring :=
  match l with
  | Some n => if (n =? 0)%Z then str "?" else string_of_Z n
  | None => str "?"
  end.

Definition or_default (d : jsstring) (o : option jsstring) : jsstring :=
  match o with
  | Some (c :: s) => c :: s
  | _ => d
  end.

Definition fix_detail (f : Fixer.applied_fix) : jsstring :=
  let p := Fixer.proposal f in
  key_of (Fixer.bugType p) ++ str " error in " ++ key_of (Fixer.file p)
  ++ str " line " ++ line_or_question (Fixer.lineNumber p)
  ++ str " " ++ [0x2192%N] ++ str " "
  ++ or_default (str "fix applied") (Fixer.description p).

Definition commit_message (fileFixes : list Fixer.applied_fix) : jsstring :=
  str "[AI-AGENT] Fix " ++ join (str "; ") (map fix_detail fileFixes).

(** The loop over the files: a file whose [add] or [commit] throws is
    logged and passed over. *)
Fixpoint commit_files (groups : list (jsstring * list Fixer.applied_fix))
    (commitCount : Z) : git Z :=
  match groups with
  | [] => ret commitCount
  | (file, fileFixes) :: groups' =>
      let* n := try_catch
                  (let* _ := call (Add file) (add env file) in
                   let* _ := call (Commit (commit_message fileFixes)) (commit env file) in
                   ret (commitCount + 1)%Z)
                  (fun _ => ret commitCount) in
      commit_files groups' n
  end.

Definition commitFixes (fixes : list Fixer.applied_fix) : git Z :=
  let* _ := call (AddConfig (str "user.email") (str "healflow-ai@agent.bot")) (addConfig env) in
  let* _ := call (AddConfig (str "user.name") (str "HealFlow AI Agent")) (addConfig env) in
  let fixedItems := List.filter is_fixed fixes in
  match fixedItems with
  | [] => ret 0%Z
  | _ =>
      fun log =>
        match group_by_file fixedItems [] with
        | Throw e => (log, Throw e)
        | Normal byFile => commit_files (entries byFile) 0 log
        end
  end.

Section Push.
Variable GITHUB_TOKEN : option jsstring.

Definition pushBranch (branchName : jsstring) : git unit :=
  let* _ :=
    match GITHUB_TOKEN with
    | Some (c :: t) =>
      let* origin := call GetRemotes (getRemotes env) in
      match origin with
      | Some url =>
          if negb (includes (c :: t) url)
          then call (RemoteSetUrl
                       (Fixer.replace_first url (str "https://")
                          (str "https://" ++ (c :: t) ++ str "@")))
                    (remoteSetUrl env)
          else ret tt
      | None => ret tt
      end
    | _ => ret tt
    end in
  call (Push (str "origin") branchName [str "--set-upstream"; str "--force"]) (push env).

Definition commitAndPush (fixes : list Fixer.applied_fix) (branchName : jsstring) : git Z :=
  let* _ := ensureBranch branchName in
  let* commitCount := commitFixes fixes in
  let* _ := if (commitCount >? 0)%Z then pushBranch branchName else ret tt in
  ret commitCount.

End Push.

End Agent.

End Committer.

(** ** agents/monitor.js

    The GitHub API is the environment.  The polls are the ones made before
    the deadline, in order. *)

Module Monitor.
Import JS Helpers Text.

Record workflow : Type := Workflow {
  wf_id : Z;
  wf_name : jsstring;
  wf_state : jsstring
}.

Record workflow_run : Type := WorkflowRun {
  run_id : Z;
  run_status : jsstring;
  conclusion : option jsstring;
  html_url : jsstring
}.

Record github_env : Type := GithubEnv {
  listRepoWorkflows : completion (list workflow);
  createWorkflowDispatch : completion unit;
  (** [listWorkflowRunsForRepo], one outcome per poll *)
  listWorkflowRuns : list (completion (list workflow_run))
}.

Inductive trigger_result : Type :=
| Triggered (workflowId : Z) (workflowName : list N)
| NotTriggered (reason : list N).

(** The result of the monitor; [passed] is [true], [false] or [null]. *)
Record ci_result : Type := CiResult {
  passed : option bool;
  ci_conclusion : option jsstring;
  url : option jsstring;
  ci_runId : option Z
}.

(** [workflows.find((w) => w.state === "active") || workflows[0]] *)
Definition pick_workflow (w0 : workflow) (ws : list workflow) : workflow :=
  default w0 (List.find (fun w => eqb_str (wf_state w) (str "active")) (w0 :: ws)).

Definition triggerWorkflow (env : github_env) : trigger_result :=
  match listRepoWorkflows env with
  | Throw m => NotTriggered m
  | Normal [] => NotTriggered (str "No workflows configured")
  | Normal (w0 :: ws) =>
      let activeWorkflow := pick_workflow w0 ws in
      (* a failed dispatch is logged, the run may start by itself *)
      Triggered (wf_id activeWorkflow) (wf_name activeWorkflow)
  end.

(** The polling loop: an error, an empty list and a run that is not
    completed all lead to the next poll; when the deadline has passed the
    result is the timeout. *)
Fixpoint pollWorkflowStatus (polls : list (completion (list workflow_run))) : ci_result :=
  match polls with
  | [] => CiResult (Some false) (Some (str "timeout")) None None
  | Normal (latestRun :: _) :: polls' =>
      if eqb_str (run_status latestRun) (str "completed")
      then CiResult (Some (bool_decide (conclusion latestRun = Some (str "success"))))
                    (conclusion latestRun) (Some (html_url latestRun))
                    (Some (run_id latestRun))
      else pollWorkflowStatus polls'
  | _ :: polls' => pollWorkflowStatus polls'
  end.

Definition monitorCI (env : github_env) : ci_result :=
  match triggerWorkflow env with
  | NotTriggered _ => CiResult None (Some (str "no_ci")) None None
  | Triggered _ _ => pollWorkflowStatus (listWorkflowRuns env)
  end.

(** What the Orchestrator reads off the result: [if (ciResult.passed)]. *)
Definition ci_green (r : ci_result) : bool :=
  match passed r with
  | Some true => true
  | _ => false
  end.

End Monitor.

(** ** store/runStore.js and the poll route

    The store is a [Map]: its entries stay in insertion order, and setting
    a key that is there keeps its place. *)

Module RunStore.
Import JS Helpers Text.

Inductive run_state : Type := running | completed | failed | error.

Section Store.
(** The request metadata, the payload of a log entry and the payload of
    a result. *)
Variables Meta Entry Result : Type.

(** [{ timestamp, ...entry }], for an entry without a timestamp of its
    own. *)
Record log_entry : Type := LogEntry { timestamp : jsstring; payload : Entry }.

Record run : Type := Run {
  runId : jsstring;
  status : run_state;
  startedAt : jsstring;
  completedAt : option jsstring;
  meta : Meta;
  logs : list log_entry;
  result : option Result
}.

Definition store : Type := list (list N * run).

(** [runs.get(runId)] *)
Fixpoint get (s : store) (id : jsstring) : option run :=
  match s with
  | [] => None
  | (k, r) :: s' => if eqb_str k id then Some r else get s' id
  end.

(** [runs.set(runId, run)] *)
Fixpoint set (s : store) (id : jsstring) (r : run) : store :=
  match s with
  | [] => [(id, r)]
  | (k, r0) :: s' => if eqb_str k id then (k, r) :: s' else (k, r0) :: set s' id r
  end.

(** [now] is [new Date().toISOString()]. *)
Definition createRun (s : store) (now id : jsstring) (m : Meta) : store * run :=
  let r := Run id running now None m [] None in
  (set s id r, r).

(** [runs.get(runId) || null] *)
Definition getRun (s : store) (id : jsstring) : option run := get s id.

(** The keys of an update; a missing key leaves the field alone. *)
Record updates : Type := Updates {
  u_status : option run_state;
  u_completedAt : option jsstring;
  u_result : option Result
}.

(** [Object.assign(run, updates)] *)
Definition assign (r : run) (u : updates) : run :=
  Run (runId r) (default (status r) (u_status u)) (startedAt r)
      (match u_completedAt u with Some c => Some c | None => completedAt r end)
      (meta r) (logs r)
      (match u_result u with Some x => Some x | None => result r end).

Definition updateRun (s : store) (id : jsstring) (u : updates) : store * option run :=
  match get s id with
  | None => (s, None)
  | Some r => (set s id (assign r u), Some (assign r u))
  end.

Definition appendLog (s : store) (now id : jsstring) (e : Entry) : store :=
  match get s id with
  | Some r =>
      set s id (Run (runId r) (status r) (startedAt r) (completedAt r) (meta r)
                    (logs r ++ [LogEntry now e]) (result r))
  | None => s
  end.

Definition getAllRuns (s : store) : list (jsstring * run_state * jsstring * option jsstring * Meta) :=
  map (fun kv => let r := snd kv in
                 (runId r, status r, startedAt r, completedAt r, meta r)) s.

(** *** [GET /api/results/:runId] *)

Inductive poll_response : Type :=
| NotFound
| Processing (id startedAt : list N) (logs : list log_entry)
| Finished (st : run_state) (id startedAt : list N) (completedAt : option (list N))
           (result : option Result).

(** [logs.slice(-20)] *)
Definition last_20 (l : list log_entry) : list log_entry := drop (length l - 20) l.

Definition get_results (s : store) (id : jsstring) : poll_response :=
  match getRun s id with
  | None => NotFound
  | Some r =>
      match status r with
      | running => Processing (runId r) (startedAt r) (last_20 (logs r))
      | st => Finished st (runId r) (startedAt r) (completedAt r) (result r)
      end
  end.

End Store.

Arguments LogEntry {Entry}.
Arguments Run {Meta Entry Result}.
Arguments runId {Meta Entry Result}.
Arguments status {Meta Entry Result}.
Arguments startedAt {Meta Entry Result}.
Arguments completedAt {Meta Entry Result}.
Arguments meta {Meta Entry Result}.
Arguments logs {Meta Entry Result}.
Arguments result {Meta Entry Result}.
Arguments NotFound {Entry Result}.
Arguments Processing {Entry Result}.
Arguments Finished {Entry Result}.
Arguments Updates {Result}.
Arguments u_status {Result}.
Arguments assign {Meta Entry Result}.
Arguments get {Meta Entry Result}.
Arguments set {Meta Entry Result}.
Arguments createRun {Meta Entry Result}.
Arguments getRun {Meta Entry Result}.
Arguments updateRun {Meta Entry Result}.
Arguments appendLog {Meta Entry Result}.
Arguments getAllRuns {Meta Entry Result}.
Arguments last_20 {Entry}.
Arguments get_results {Meta Entry Result}.

(** How a run is recorded when it settles: the update [Orchestrator.run]
    makes with its report, and the one the route makes when [run]
    rejects. *)
Definition settle {Meta Entry : Type}
    (s : store Meta Entry (Orchestrator.results + jsstring)) (now id : jsstring)
    (outcome : completion Orchestrator.results)
    : store Meta Entry (Orchestrator.results + jsstring) :=
  match outcome with
  | Normal results =>
      fst (updateRun s id
             (Updates (Some (if bool_decide (Orchestrator.finalStatus results
                                             = Orchestrator.PASSED)
                             then completed else failed))
                      (Some now) (Some (inl results))))
  | Throw message =>
      fst (updateRun s id (Updates (Some error) (Some now) (Some (inr message))))
  end.

End RunStore.

(** * The wording of the specification, and sample inputs

    [Words] holds what the specification says in its own words, where a
    property compares the code with it.  [Samples] holds concrete inputs. *)

Module Words.
Import JS Helpers.

(** The branch name, by the words of the specification: uppercase each
    name, strip what is neither an uppercase letter, a digit nor
    whitespace, turn each run of whitespace into one underscore, join the
    two with an underscore, append the suffix. *)

Definition strip_non_alphanumerics (s : jsstring) : jsstring :=
  List.filter (fun c => is_upper c || is_digit c || is_space c) s.

(** [in_run] tells that the previous unit was whitespace. *)
Fixpoint collapse_whitespace (in_run : bool) (s : jsstring) : jsstring :=
  match s with
  | [] => []
  | c :: s' =>
      if is_space c
      then if in_run then collapse_whitespace true s'
           else chr "_" :: collapse_whitespace true s'
      else c :: collapse_whitespace false s'
  end.

Definition token (unicode_upper : jsstring -> jsstring) (name : jsstring) : jsstring :=
  collapse_whitespace false (strip_non_alphanumerics (toUpperCase unicode_upper name)).

Definition branch_name (unicode_upper : jsstring -> jsstring)
    (team leader : jsstring) : jsstring :=
  token unicode_upper team ++ str "_" ++ token unicode_upper leader ++ str "_AI_Fix".

End Words.

Module RoutesSpec.
Import JS Helpers.

Fixpoint strip_prefix (p s : jsstring) : option jsstring :=
  match p, s with
  | [], _ => Some s
  | a :: p', b :: s' => if (a =? b)%N then strip_prefix p' s' else None
  | _ :: _, [] => None
  end.






End RoutesSpec.

Module OrchestratorSpec.
Import JS Orchestrator.

Definition is_iteration_start (e : event) : bool :=
  match e with
  | iteration_start _ => true
  | _ => false
  end.

(** The repair iterations a run executed: each one announces itself with
    an [iteration_start] broadcast when it begins. *)
Definition iterations_started (evs : list event) : nat :=
  length (List.filter is_iteration_start evs).

(** The entries a timeline holds for CI runs that passed. *)
Definition ci_passes (tl : list iteration_record) : nat :=
  length (List.filter (fun r => bool_decide (status r = CI_PASSED)) tl).

(** The timeline at [buildResults]: the [catch] block adds an entry. *)
Definition entries_at_end (e : try_end) : nat :=
  length (st_timeline (end_state e))
  + match thrown e with Some _ => 1 | None => 0 end.

End OrchestratorSpec.

Module Samples.
Import JS Helpers.

(** The metrics of the commit-cap scenario. *)
Definition commit_cap : Scoring.metrics := Scoring.Metrics 200000 25 10 3.


(** The engine's table, cut down to the identity above ASCII. *)
Definition no_unicode (run : jsstring) : jsstring := run.

(** A small world: the process runs in [/app], the remote repository
    holds one Python file with a missing colon. *)
Definition app_dir : jsstring := str "/app".
Definition run_1 : jsstring := str "run-1".
Definition project_url : jsstring := str "https://github.com/team/project".
Definition run_1_dir : jsstring := Analyzer.tmp_dir app_dir run_1.

Definition remote : list (jsstring * jsstring) :=
  [ (str "a.py", str "def f()" ++ [10%N] ++ str "    return 1") ].

Definition tests_fail : Docker.sandbox_env :=
  Docker.DockerUnavailable
    (Docker.ExecCallback (Some (Docker.ExecError (Docker.CodeNumber 1) false None))
                         (Some (str "SyntaxError: invalid syntax")) (Some [])).

Definition tests_pass : Docker.sandbox_env :=
  Docker.DockerUnavailable (Docker.ExecCallback None (Some (str "1 passed")) (Some [])).

(** The proposal of the one-shot-fix scenario. *)
Definition add_colon : Fixer.fix_proposal :=
  Fixer.FixProposal (Some (str "a.py")) (Some 1%Z) (Some (str "SYNTAX"))
    (Some (str "Missing colon")) (Some (str "def f()")) (Some (str "def f():")) None.

(** A proposal whose original text is not in the file and whose line
    number is negative. *)
Definition negative_line : Fixer.fix_proposal :=
  Fixer.FixProposal (Some (str "a.py")) (Some (-1)%Z) (Some (str "SYNTAX"))
    (Some (str "Missing colon")) (Some (str "def g()")) (Some (str "def g():")) None.

(** The tree after the clone. *)
Definition cloned : FileSystem.FS :=
  fst (Analyzer.cloneRepo app_dir ∅ run_1 (Normal tt) (Normal tt) remote).

(** A parser for the replies of the sample worlds: every array it is
    given holds the proposal [add_colon]. *)
Definition parse_add_colon (text : jsstring) : completion (list Fixer.fix_proposal) :=
  Normal [add_colon].

Definition rate_limited : completion jsstring := Throw (str "429 Too Many Requests").

(** The tests fail, every model is rate limited. *)
Definition world_exhausted : Orchestrator.world :=
  Orchestrator.World (Normal tt) (Normal tt) remote (Normal tt) tests_fail
    (fun _ _ _ => rate_limited)
    (fun _ _ => Normal 1%Z) (fun _ => tests_fail) (fun _ => Normal None)
    1000 (Normal tt) (Normal tt).




(** The tests fail before and after the fix of iteration 1, and the
    remote CI run of the pushed branch succeeds. *)
Definition world_ci_green : Orchestrator.world :=
  Orchestrator.World (Normal tt) (Normal tt) remote (Normal tt) tests_fail
    (fun _ _ _ => Normal (str "[{}]"))
    (fun _ _ => Normal 1%Z) (fun _ => tests_fail) (fun _ => Normal (Some true))
    1000 (Normal tt) (Normal tt).

(** Both attempts to clone fail. *)
Definition world_no_clone : Orchestrator.world :=
  Orchestrator.World (Throw (str "fatal: repository not found"))
    (Throw (str "fatal: repository not found")) remote (Normal tt) tests_fail
    (fun _ _ _ => rate_limited)
    (fun _ _ => Normal 1%Z) (fun _ => tests_fail) (fun _ => Normal None)
    1000 (Normal tt) (Normal tt).

(** As [world_ci_green], but the CI run succeeds in iteration 3 only. *)
Definition world_ci_green_late : Orchestrator.world :=
  Orchestrator.World (Normal tt) (Normal tt) remote (Normal tt) tests_fail
    (fun _ _ _ => Normal (str "[{}]"))
    (fun _ _ => Normal 1%Z) (fun _ => tests_fail)
    (fun i => Normal (Some (i =? 3)%Z))
    1000 (Normal tt) (Normal tt).


(** A run of the sample process in a world, with a retry limit. *)
Definition sample_run (RETRY_LIMIT : Z) (w : Orchestrator.world) : Orchestrator.run_end :=
  Orchestrator.run no_unicode app_dir parse_add_colon None RETRY_LIMIT w ∅
    run_1 project_url (str "Code Warriors") (str "John Doe").

End Samples.

Module ClassifierInvariant.
Import JS Classifier.

(** What every record of the [errors] array satisfies, for the lines
    [all] of the log. *)
Definition kept_for_a_reason (all : list jsstring) (r : error_record) : Prop :=
  exists line,
    In line all /\ rawMessage r = trim line /\ bugType r = classifyError line /\
    (bugType r = UNKNOWN ->
     includes (str "Error") line = true \/ includes (str "FAIL") line = true).

End ClassifierInvariant.

Module RegexSpec.
Import JS Regex.

(** A greedy star over one class, read off the text: the longest run
    first, then each shorter one, until the continuation accepts. *)
Fixpoint star_cls {A : Type} (p : N -> bool) (s : jsstring)
    (k : jsstring -> option A) : option A :=
  match s with
  | x :: s' =>
      if p x
      then match star_cls p s' k with
           | Some r => Some r
           | None => k s
           end
      else k s
  | [] => k []
  end.

End RegexSpec.

(** What a git log shows of the calls the Committer made. *)

Module GitLog.
Import JS Committer.

Definition commit_messages (log : list git_command) : list jsstring :=
  omap (fun c => match c with Commit m => Some m | _ => None end) log.

Definition added_files (log : list git_command) : list jsstring :=
  omap (fun c => match c with Add f => Some f | _ => None end) log.

Definition pushes (log : list git_command) : list jsstring :=
  omap (fun c => match c with Push _ b _ => Some b | _ => None end) log.

(** What the loop over the files writes to the log: an [add] per file,
    and the [commit] when the [add] went through. *)
Definition commit_trace (env : git_env) (groups : list (jsstring * list Fixer.applied_fix))
    : list git_command :=
  flat_map (fun g => Add (fst g)
                     :: match add env (fst g) with
                        | Normal _ => [Commit (commit_message (snd g))]
                        | Throw _ => []
                        end) groups.

(** The files whose [add] and [commit] both went through. *)
Definition committed (env : git_env) (groups : list (jsstring * list Fixer.applied_fix))
    : list (jsstring * list Fixer.applied_fix) :=
  List.filter (fun g => match add env (fst g), commit env (fst g) with
                        | Normal _, Normal _ => true
                        | _, _ => false
                        end) groups.

End GitLog.

(** A poll of the workflow runs that does not end the polling: an error,
    an empty list, or a latest run that is not completed. *)

Module MonitorSpec.
Import JS Monitor.

Definition undecided (p : completion (list workflow_run)) : bool :=
  match p with
  | Normal (latestRun :: _) => negb (eqb_str (run_status latestRun) (str "completed"))
  | _ => true
  end.

End MonitorSpec.

(** What a timeline shows. *)

Module TimelineSpec.
Import JS Orchestrator.

(** The statuses that stand for passing tests. *)
Definition is_green (s : run_status) : bool :=
  match s with
  | PASSED | CI_PASSED => true
  | _ => false
  end.

(** The entries of failing test runs. *)
Definition failed_entries (tl : list iteration_record) : nat :=
  length (List.filter (fun r => bool_decide (status r = FAILED)) tl).

(** The timeline at [buildResults]: the [catch] block adds an entry. *)
Definition timeline_at_end (e : try_end) : list iteration_record :=
  st_timeline (end_state e)
  ++ match thrown e with
     | Some _ => [IterationRecord (end_iteration e) ERROR]
     | None => []
     end.

End TimelineSpec.

(** * Properties *)

(** ** The matcher on the shapes the source uses *)

Module RegexFacts.
Import JS Regex RegexSpec.

Lemma drop_while_length (p : N -> bool) (s : jsstring) :
  (length (drop_while p s) <= length s)%nat.
Proof. induction s as [|x s IH]; cbn; [lia|]. destruct (p x); cbn; lia. Qed.

Lemma star_iter_cls {A : Type} (p : N -> bool) (k : jsstring -> caps -> option A)
    (fuel : nat) (s : jsstring) (c : caps) :
  (length s <= fuel)%nat ->
  star_iter (fun s' c' k' => rmatch (Cls p) s' c' k') k fuel s c
  = star_cls p s (fun s' => k s' c).
Proof.
  revert s. induction fuel as [|fuel IH]; intros s Hlen.
  - destruct s; [reflexivity | cbn in Hlen; lia].
  - destruct s as [|x s]; [reflexivity|].
    cbn [star_iter rmatch star_cls]. destruct (p x); [|reflexivity].
    cbn [length]. rewrite (proj2 (Nat.ltb_lt _ _)) by lia.
    rewrite IH by (cbn in Hlen; lia). reflexivity.
Qed.

Lemma rmatch_star_cls {A : Type} (p : N -> bool) (s : jsstring) (c : caps)
    (k : jsstring -> caps -> option A) :
  rmatch (Star (Cls p)) s c k = star_cls p s (fun s' => k s' c).
Proof. cbn [rmatch]. apply star_iter_cls. lia. Qed.

(** When the continuation takes whatever is left, the star takes the
    whole run. *)
Lemma star_cls_total {A : Type} (p : N -> bool) (s : jsstring) (f : jsstring -> A) :
  star_cls p s (fun s' => Some (f s')) = Some (f (drop_while p s)).
Proof.
  induction s as [|x s IH]; [reflexivity|]. cbn. destruct (p x); [|reflexivity].
  rewrite IH. reflexivity.
Qed.


Lemma match_here_cls (p : N -> bool) (s : jsstring) :
  match_here (Cls p) s
  = match s with
    | x :: s' => if p x then Some (s', []) else None
    | [] => None
    end.
Proof. reflexivity. Qed.

Lemma match_here_plus_cls (p : N -> bool) (s : jsstring) :
  match_here (Plus (Cls p)) s
  = match s with
    | x :: s' => if p x then Some (drop_while p s', []) else None
    | [] => None
    end.
Proof.
  unfold match_here, Plus. cbn [rmatch]. destruct s as [|x s]; [reflexivity|].
  destruct (p x); [|reflexivity].
  change (star_iter _ _ _ s []) with
    (rmatch (Star (Cls p)) s [] (fun rest c => Some (rest, c))).
  rewrite rmatch_star_cls.
  apply (star_cls_total p s (fun s' => (s', @nil (nat * list N)))).
Qed.

(** Deleting every match of a class is filtering. *)
Lemma replace_all_cls_delete (p : N -> bool) (s : jsstring) :
  replace_all (Cls p) [] s = List.filter (fun c => negb (p c)) s.
Proof.
  unfold replace_all. generalize (Nat.lt_succ_diag_r (length s)).
  generalize (S (length s)) as fuel. intros fuel; revert s.
  induction fuel as [|fuel IH]; intros s Hlen; [lia|].
  cbn [replace_all_fuel]. rewrite match_here_cls.
  destruct s as [|x s]; [reflexivity|]. cbn [List.filter length] in *.
  destruct (p x); cbn [negb].
  - rewrite (proj2 (Nat.ltb_lt _ _)) by lia. cbn [app]. apply IH. lia.
  - f_equal. apply IH. lia.
Qed.

End RegexFacts.

(** ** The branch name *)

Module HelpersFacts.
Import JS Regex Helpers Words Samples RegexFacts.

Lemma collapse_after_run (s : jsstring) :
  collapse_whitespace true s = collapse_whitespace false (drop_while is_space s).
Proof.
  induction s as [|x s IH]; [reflexivity|]. cbn [collapse_whitespace drop_while].
  destruct (is_space x) eqn:Hx; [exact IH|].
  cbn [collapse_whitespace]. rewrite Hx. reflexivity.
Qed.

(** Replacing the runs of whitespace by an underscore is collapsing. *)
Lemma replace_spaces (s : jsstring) :
  replace_all re_spaces (str "_") s = collapse_whitespace false s.
Proof.
  unfold replace_all, re_spaces. generalize (Nat.lt_succ_diag_r (length s)).
  generalize (S (length s)) as fuel. intros fuel; revert s.
  induction fuel as [|fuel IH]; intros s Hlen; [lia|].
  cbn [replace_all_fuel]. rewrite match_here_plus_cls.
  destruct s as [|x s]; [reflexivity|]. cbn [collapse_whitespace length] in *.
  destruct (is_space x).
  - pose proof (drop_while_length is_space s).
    rewrite (proj2 (Nat.ltb_lt _ _)) by lia.
    rewrite IH by lia. rewrite collapse_after_run. reflexivity.
  - f_equal. apply IH. lia.
Qed.

Lemma strip_is_filter (s : jsstring) :
  replace_all re_not_upper_digit_space [] s = strip_non_alphanumerics s.
Proof.
  unfold re_not_upper_digit_space. rewrite replace_all_cls_delete.
  unfold strip_non_alphanumerics. apply List.filter_ext.
  intros c. apply negb_involutive.
Qed.

Lemma sanitize_token (unicode_upper : jsstring -> jsstring) (s : jsstring) :
  sanitize unicode_upper s = token unicode_upper (trim s).
Proof. unfold sanitize, token. rewrite strip_is_filter, replace_spaces. reflexivity. Qed.

Lemma collapse_no_space (b : bool) (s : jsstring) :
  Forall (fun c => is_space c = false) (collapse_whitespace b s).
Proof.
  revert b. induction s as [|x s IH]; intros b; cbn; [constructor|].
  destruct (is_space x) eqn:Hx.
  - destruct b; [apply IH|]. constructor; [reflexivity | apply IH].
  - constructor; [exact Hx | apply IH].
Qed.

(** C8, as the specification words it, fails on a name that starts with
    a blank: the code trims the name first and yields [A_B_AI_Fix], the
    steps of the specification yield [_A_B_AI_Fix]. *)
Lemma C8_leading_blank :
  generateBranchName no_unicode (str " a") (str "b") = str "A_B_AI_Fix" /\
  branch_name no_unicode (str " a") (str "b") = str "_A_B_AI_Fix" /\
  generateBranchName no_unicode (str " a") (str "b")
    <> branch_name no_unicode (str " a") (str "b").
Proof. repeat split; vm_compute; congruence. Qed.

(** C8, amended: for all (team, leader) and every Unicode table, the
    branch name is obtained by trimming each name, uppercasing it,
    stripping what is neither alphanumeric nor whitespace, collapsing each
    run of whitespace to one underscore, joining the two with an
    underscore and appending the suffix; the derivation is a total
    function, and no whitespace occurs in the result. *)
Theorem C8_branch_name (unicode_upper : jsstring -> jsstring) (team leader : jsstring) :
  generateBranchName unicode_upper team leader
    = branch_name unicode_upper (trim team) (trim leader) /\
  Forall (fun c => is_space c = false) (generateBranchName unicode_upper team leader).
Proof.
  assert (generateBranchName unicode_upper team leader
          = branch_name unicode_upper (trim team) (trim leader)) as E.
  { unfold generateBranchName, branch_name. rewrite !sanitize_token. reflexivity. }
  split; [exact E|]. rewrite E. unfold branch_name, token.
  repeat apply Forall_app_2; try apply collapse_no_space.
  - vm_compute. repeat constructor.
  - vm_compute. repeat constructor.
Qed.

End HelpersFacts.

(** ** Scoring *)

Module ScoringFacts.
Import Scoring Samples.

(** C3, as the specification words it, fails on the sign of a penalty: the
    breakdown the function returns for 25 commits holds -10 under
    [commitPenalty], where the formula max(0, commitCount - 20) * 2 gives
    10. *)
Lemma C3_penalty_is_negated :
  commitPenalty (computeScore commit_cap) = (-10)%Z /\
  (Z.max 0 (commitCount commit_cap - 20) * 2 = 10)%Z /\
  commitPenalty (computeScore commit_cap)
    <> (Z.max 0 (commitCount commit_cap - 20) * 2)%Z.
Proof. repeat split; vm_compute; congruence. Qed.

(** C3, amended: for all metrics the breakdown has base 100, speed bonus 10
    exactly under 300000 ms, fix bonus min(fixCount, 20) * 2, the two
    penalties stored negated, -(max(0, commitCount - 20) * 2) and
    -(max(0, iterationCount - 3) * 5), and the total
    max(0, base + speedBonus + fixBonus + commitPenalty + iterationPenalty);
    the commit-cap scenario totals 120. *)
Theorem C3_computeScore (m : metrics) :
  let b := computeScore m in
  base b = 100%Z /\
  speedBonus b = (if (totalTime m <? 300000)%Z then 10 else 0)%Z /\
  fixBonus b = (Z.min (fixCount m) 20 * 2)%Z /\
  commitPenalty b = (- (Z.max 0 (commitCount m - 20) * 2))%Z /\
  iterationPenalty b = (- (Z.max 0 (iterationCount m - 3) * 5))%Z /\
  total b = Z.max 0 (base b + speedBonus b + fixBonus b
                     + commitPenalty b + iterationPenalty b) /\
  total (computeScore commit_cap) = 120%Z.
Proof.
  unfold computeScore; cbn [base speedBonus fixBonus commitPenalty iterationPenalty total].
  repeat split; try reflexivity.
  - destruct (Z.gtb_spec (commitCount m) 20); lia.
  - destruct (Z.gtb_spec (iterationCount m) 3); lia.
  - lia.
Qed.

(** The total never leaves the interval the bonuses allow. *)
Lemma total_bounds (m : metrics) :
  let b := computeScore m in
  (0 <= total b)%Z /\ (total b <= Z.max 0 (base b + speedBonus b + fixBonus b))%Z.
Proof.
  unfold computeScore; cbn [base speedBonus fixBonus total].
  destruct (Z.gtb_spec (commitCount m) 20), (Z.gtb_spec (iterationCount m) 3); lia.
Qed.

End ScoringFacts.

(** ** The sandbox *)

Module DockerFacts.
Import JS Docker.

(** Container mode: once the container runs and the timer wins the race,
    the result is exit code 124 with the marker on stderr. *)
Lemma container_timeout (env : container_env) :
  (inspect_image env = Normal tt \/ pull_image env = Normal tt) ->
  create_container env = Normal tt ->
  attach env = Normal tt ->
  start env = Normal tt ->
  race env = TimerFired ->
  _runInDockerContainer env = Normal (ExecResult (ExitNum 124) [] TIMEOUT_MARKER).
Proof.
  intros Himg Hc Ha Hs Hr. unfold _runInDockerContainer, run_container.
  rewrite Hc, Ha, Hs, Hr.
  assert (match inspect_image env with Normal _ => Normal tt | Throw _ => pull_image env end
          = Normal tt) as ->.
  { destruct Himg as [-> | Hp]; [reflexivity|].
    destruct (inspect_image env); [reflexivity | exact Hp]. }
  reflexivity.
Qed.

(** Native mode never writes the marker: stderr is the tail of what the
    child wrote, and the exit code is the code of the error, or 1. *)
Lemma native_result (cb : exec_callback) :
  stderr (_runNative cb) = tail_or_empty (cb_stderr cb) /\
  (exitCode (_runNative cb) = ExitNum 124 ->
   exists e, cb_error cb = Some e /\ code e = CodeNumber 124).
Proof.
  split; [reflexivity|].
  unfold _runNative; cbn [exitCode]. destruct (cb_error cb) as [e|]; [|discriminate].
  intros H. exists e; split; [reflexivity|].
  destruct (code e) as [n| |[|c s]]; cbn in H; try discriminate.
  destruct (Z.eqb_spec n 0); congruence.
Qed.

(** C6 at the failing input: the native fallback, a command that outlives
    the timeout having written [boom] to stderr.  The result carries exit
    code 1 and the text of the child, not 124 and the marker. *)
Theorem C6_native_timeout :
  let r := runInDocker (DockerUnavailable (timeout_callback [] (str "boom"))) in
  r = Normal (ExecResult (ExitNum 1) [] (str "boom")) /\
  r <> Normal (ExecResult (ExitNum 124) [] TIMEOUT_MARKER).
Proof. split; [reflexivity | discriminate]. Qed.

End DockerFacts.

(** ** The classifier *)

Module ClassifierFacts.
Import JS Classifier ClassifierInvariant.

Lemma parse_step_keeps (all : list jsstring) st line :
  In line all ->
  Forall (kept_for_a_reason all) (snd st) ->
  Forall (kept_for_a_reason all) (snd (parse_step st line)).
Proof.
  intros Hin Hst. destruct st as [seen errors]. unfold parse_step.
  destruct (bool_decide (classifyError line = UNKNOWN)
            && negb (includes (str "Error") line)
            && negb (includes (str "FAIL") line)) eqn:Hdrop; [exact Hst|].
  destruct (bool_decide (_ ∈ seen)); [exact Hst|].
  cbn [snd] in *. apply Forall_app; split; [exact Hst|].
  constructor; [|constructor].
  exists line. cbn [rawMessage bugType].
  split; [exact Hin|]. split; [reflexivity|]. split; [reflexivity|].
  intros Hu. rewrite (bool_decide_eq_true_2 _ Hu) in Hdrop. cbn [andb] in Hdrop.
  destruct (includes (str "Error") line); [left; reflexivity|].
  destruct (includes (str "FAIL") line); [right; reflexivity|].
  cbn [negb andb] in Hdrop. discriminate.
Qed.

Lemma fold_parse_keeps (all lines : list jsstring) st :
  (forall l, In l lines -> In l all) ->
  Forall (kept_for_a_reason all) (snd st) ->
  Forall (kept_for_a_reason all) (snd (fold_left parse_step lines st)).
Proof.
  revert st. induction lines as [|l lines IH]; intros st Hsub Hst; [exact Hst|].
  cbn [fold_left]. apply IH.
  - intros l' Hl'. apply Hsub. right; exact Hl'.
  - apply parse_step_keeps; [apply Hsub; left; reflexivity | exact Hst].
Qed.

Lemma parse_step_length st line :
  (length (snd (parse_step st line)) <= S (length (snd st)))%nat.
Proof.
  destruct st as [seen errors]. unfold parse_step.
  destruct (_ && _ && _); [cbn; lia|].
  destruct (bool_decide _); cbn; [lia|]. rewrite length_app; cbn; lia.
Qed.

Lemma fold_parse_length lines st :
  (length (snd (fold_left parse_step lines st)) <= length lines + length (snd st))%nat.
Proof.
  revert st. induction lines as [|l lines IH]; intros st; cbn [fold_left]; [cbn; lia|].
  specialize (IH (parse_step st l)). pose proof (parse_step_length st l). cbn [length]. lia.
Qed.

(** The classifier returns at most one record per line of the log. *)
Lemma parseErrorLog_length (rawLog : jsstring) :
  (length (parseErrorLog rawLog) <= length (split_on 10 rawLog))%nat.
Proof.
  unfold parseErrorLog, log_lines.
  etransitivity; [apply fold_parse_length|]. cbn [snd length].
  rewrite Nat.add_0_r. apply List.filter_length_le.
Qed.

(** C9: the classifier is a total function to lists, and a record of kind
    UNKNOWN comes from a line of the log that contains [Error] or [FAIL]
    (its raw message is that line, trimmed). *)
Theorem C9_unknown_only_with_marker (rawLog : jsstring) (r : error_record) :
  In r (parseErrorLog rawLog) ->
  bugType r = UNKNOWN ->
  exists line,
    In line (split_on 10 rawLog) /\ rawMessage r = trim line /\
    (includes (str "Error") line = true \/ includes (str "FAIL") line = true).
Proof.
  intros Hin Hu.
  assert (Forall (kept_for_a_reason (split_on 10 rawLog)) (parseErrorLog rawLog)) as Hall.
  { unfold parseErrorLog. apply fold_parse_keeps; [|constructor].
    unfold log_lines. intros l Hl. apply List.filter_In in Hl. tauto. }
  rewrite List.Forall_forall in Hall. destruct (Hall r Hin) as (line & H1 & H2 & _ & H4).
  exists line; auto.
Qed.

(** C9 at work on a two-line log. *)
Lemma C9_witness :
  exists line,
    In line (split_on 10 (str "ok" ++ [10%N] ++ str "  Error: boom ")) /\
    str "Error: boom" = trim line /\
    (includes (str "Error") line = true \/ includes (str "FAIL") line = true).
Proof.
  apply (C9_unknown_only_with_marker
           (str "ok" ++ [10%N] ++ str "  Error: boom ")
           (ErrorRecord UNKNOWN None None (str "Error: boom"))).
  - vm_compute. left; reflexivity.
  - reflexivity.
Defined.

End ClassifierFacts.

(** ** The submit-run endpoint *)

Module RoutesFacts.
Import JS Regex Helpers RegexSpec RegexFacts Routes RoutesSpec Samples.


Lemma strip_prefix_starts (p s : jsstring) :
  strip_prefix p s = if starts_with p s then Some (drop (length p) s) else None.
Proof.
  revert s. induction p as [|a p IH]; intros s; [reflexivity|].
  destruct s as [|x s]; [reflexivity|]. cbn. destruct (a =? x)%N; [apply IH | reflexivity].
Qed.

Lemma strip_prefix_Some (p s t : jsstring) :
  strip_prefix p s = Some t <-> s = p ++ t.
Proof.
  revert s. induction p as [|a p IH]; intros s; cbn.
  - split; congruence.
  - destruct s as [|x s]; [split; discriminate|].
    destruct (N.eqb_spec a x) as [->|Hne].
    + rewrite IH. split; congruence.
    + split; [discriminate | congruence].
Qed.










Lemma exec_from_Some (r : regex) (idx : nat) (s : jsstring) :
  is_Some (exec_from r idx s)
  <-> exists pre t, s = pre ++ t /\ is_Some (match_here r t).
Proof.
  revert idx. induction s as [|x s IH]; intros idx; cbn [exec_from].
  - destruct (match_here r []) as [[rest c]|] eqn:E.
    + split; [intros _; exists [], []; rewrite E; eauto | eauto].
    + split; [intros [? ?]; discriminate|].
      intros (pre & t & Hs & Ht). symmetry in Hs. apply app_eq_nil in Hs as [-> ->].
      rewrite E in Ht. destruct Ht; discriminate.
  - destruct (match_here r (x :: s)) as [[rest c]|] eqn:E.
    + split; [intros _; exists [], (x :: s); rewrite E; eauto | eauto].
    + rewrite IH. split.
      * intros (pre & t & -> & Ht). exists (x :: pre), t. eauto.
      * intros (pre & t & Hs & Ht). destruct pre as [|y pre].
        -- cbn in Hs. subst t. rewrite E in Ht. destruct Ht; discriminate.
        -- injection Hs as -> ->. eauto.
Qed.






End RoutesFacts.

(** ** The Fix Generator and the Patch Applier *)

Module FixerFacts.
Import JS Regex Helpers FileSystem Fixer Samples.

Lemma split_on_cons (sep : N) (s : jsstring) :
  exists l ls, split_on sep s = l :: ls.
Proof.
  induction s as [|c s (l & ls & E)]; cbn; [eauto|].
  destruct (c =? sep)%N; [eauto|]. rewrite E. eauto.
Qed.

(** Splitting at line feeds and joining with line feeds gives the text
    back. *)
Lemma join_split (s : jsstring) : join [10%N] (split_on 10 s) = s.
Proof.
  induction s as [|c s IH]; [reflexivity|]. cbn [split_on].
  destruct (split_on_cons 10 s) as (l & ls & E). rewrite E in *.
  destruct (N.eqb_spec c 10) as [->|Hc].
  - change (join [10%N] ([] :: l :: ls)) with (10%N :: join [10%N] (l :: ls)).
    rewrite IH. reflexivity.
  - destruct ls as [|l' ls]; cbn [join app] in *; rewrite <- IH; reflexivity.
Qed.

Section Agent.
Variable cwd : jsstring.
Variable JSON_parse : jsstring -> completion (list fix_proposal).
Variable GEMINI_MODEL : option jsstring.

Lemma try_model_rate_limited (llm : nat -> completion jsstring) :
  (forall attempt, exists m, llm attempt = Throw m /\ is429 m = true) ->
  try_model llm 1 3 = Exhausted.
Proof.
  intros H. cbn [try_model].
  destruct (H 1%nat) as (m1 & -> & ->), (H 2%nat) as (m2 & -> & ->),
           (H 3%nat) as (m3 & -> & ->).
  reflexivity.
Qed.






(** *** The line fallback of [apply_fix] *)

Lemma includes_empty (s : jsstring) : includes [] s = true.
Proof. destruct s; reflexivity. Qed.

Section LineFallback.
Variable fs : FS.
Variable repoDir : jsstring.
Variable fx : fix_proposal.
Variables f original fixed content : jsstring.
Hypothesis Hfile : file fx = Some f.
Hypothesis Horiginal : originalCode fx = Some original.
Hypothesis Hfixed : fixedCode fx = Some fixed.
Hypothesis Hf : f <> [].
Hypothesis Hfx : fixed <> [].
Hypothesis Hcontent : fs !! path_resolve cwd repoDir f = Some (File content).
Hypothesis Habsent : includes original content = false.

Lemma original_not_empty : original <> [].
Proof using Habsent.
  intros E. rewrite E, includes_empty in Habsent. discriminate Habsent.
Qed.

Lemma line_fallback_reached :
  apply_fix cwd fs repoDir fx
  = match lineNumber fx with
    | Some n =>
        if negb (n =? 0)%Z && (n <=? Z.of_nat (length (split_on 10 content)))%Z
        then (<[ path_resolve cwd repoDir f :=
                   File (join [10%N] (array_set (split_on 10 content) (n - 1) fixed)) ]> fs,
              AppliedFix fx Fixed None)
        else (fs, AppliedFix fx Failed (Some (str "Original code not found")))
    | None => (fs, AppliedFix fx Failed (Some (str "Original code not found")))
    end.
Proof using All.
  pose proof original_not_empty as Ho.
  unfold apply_fix. rewrite Hfile, Horiginal, Hfixed. cbn [default from_option id].
  destruct f as [|? ?]; [congruence|]. destruct original as [|? ?]; [congruence|].
  destruct fixed as [|? ?]; [congruence|]. cbn [falsy orb]. cbv zeta.
  unfold pathExists, readFile, writeFile. rewrite Hcontent.
  rewrite bool_decide_eq_true_2 by eauto. cbn [negb].
  rewrite Habsent. cbn [negb]. unfold applied.
  destruct (lineNumber fx) as [ln|]; [|reflexivity].
  destruct (negb (ln =? 0)%Z && _); reflexivity.
Qed.

(** A line inside the file: the line is overwritten, the proposal is
    marked Fixed. *)
Lemma line_fallback_in_bounds (n : Z) :
  lineNumber fx = Some n ->
  (1 <= n <= Z.of_nat (length (split_on 10 content)))%Z ->
  apply_fix cwd fs repoDir fx
  = (<[ path_resolve cwd repoDir f :=
          File (join [10%N] (<[ Z.to_nat (n - 1) := fixed ]> (split_on 10 content))) ]> fs,
     AppliedFix fx Fixed None).
Proof using All.
  intros Hn Hb. rewrite line_fallback_reached, Hn.
  rewrite (proj2 (Z.eqb_neq n 0)) by lia. rewrite (proj2 (Z.leb_le _ _)) by lia.
  cbn [negb andb]. unfold array_set.
  rewrite (proj2 (Z.ltb_ge _ _)) by lia. rewrite (proj2 (Nat.ltb_lt _ _)) by lia.
  reflexivity.
Qed.

(** No line, line 0, or a line past the end: marked Failed, the tree is
    left alone. *)
Lemma line_fallback_no_line :
  match lineNumber fx with
  | Some n => n = 0%Z \/ (Z.of_nat (length (split_on 10 content)) < n)%Z
  | None => True
  end ->
  apply_fix cwd fs repoDir fx
  = (fs, AppliedFix fx Failed (Some (str "Original code not found"))).
Proof using All.
  intros Hn. rewrite line_fallback_reached.
  destruct (lineNumber fx) as [n|]; [|reflexivity].
  destruct Hn as [-> | Hn]; [reflexivity|].
  rewrite (proj2 (Z.leb_gt _ _)) by lia. rewrite andb_false_r. reflexivity.
Qed.

(** A negative line: marked Fixed, and the file is written back as it
    was, so that the tree does not change. *)
Lemma line_fallback_negative (n : Z) :
  lineNumber fx = Some n ->
  (n < 0)%Z ->
  apply_fix cwd fs repoDir fx = (fs, AppliedFix fx Fixed None).
Proof using All.
  intros Hn Hb. rewrite line_fallback_reached, Hn.
  rewrite (proj2 (Z.eqb_neq n 0)) by lia. rewrite (proj2 (Z.leb_le _ _)) by lia.
  cbn [negb andb]. unfold array_set. rewrite (proj2 (Z.ltb_lt _ _)) by lia.
  rewrite join_split, insert_id by exact Hcontent. reflexivity.
Qed.

End LineFallback.

End Agent.

(** C5 at the failing input: in the cloned sample tree, a proposal for
    [a.py] whose original text does not occur in the file and whose line
    is -1.  The line is outside the file, so the claim asks for Failed
    with the reason that the original code was not found; the Patch
    Applier marks the proposal Fixed and leaves the file as it was. *)
Theorem C5_negative_line_marked_fixed :
  let target := path_resolve app_dir run_1_dir (str "a.py") in
  let content := str "def f()" ++ [10%N] ++ str "    return 1" in
  cloned !! target = Some (File content) /\
  includes (str "def g()") content = false /\
  lineNumber negative_line = Some (-1)%Z /\
  length (split_on 10 content) = 2%nat /\
  snd (apply_fix app_dir cloned run_1_dir negative_line)
    = AppliedFix negative_line Fixed None /\
  fst (apply_fix app_dir cloned run_1_dir negative_line) !! target = Some (File content).
Proof. cbv zeta. repeat split; vm_compute; reflexivity. Qed.

End FixerFacts.

(** ** The Orchestrator *)

Module OrchestratorFacts.
Import JS Helpers FileSystem Orchestrator OrchestratorSpec Samples.

Lemma started_snoc (evs : list event) (e : event) :
  iterations_started (evs ++ [e])
  = (iterations_started evs + if is_iteration_start e then 1 else 0)%nat.
Proof.
  unfold iterations_started. rewrite List.filter_app, length_app. cbn.
  destruct (is_iteration_start e); reflexivity.
Qed.

Lemma ci_passes_snoc (tl : list iteration_record) (r : iteration_record) :
  ci_passes (tl ++ [r])
  = (ci_passes tl + match status r with CI_PASSED => 1 | _ => 0 end)%nat.
Proof.
  unfold ci_passes. rewrite List.filter_app, length_app.
  destruct r as [i []]; reflexivity.
Qed.

Section Run.
Variable unicode_upper : jsstring -> jsstring.
Variable cwd : jsstring.
Variable JSON_parse : jsstring -> completion (list Fixer.fix_proposal).
Variable GEMINI_MODEL : option jsstring.
Variable RETRY_LIMIT : Z.
Variable w : world.

Local Abbreviation loop := (fix_loop cwd JSON_parse GEMINI_MODEL RETRY_LIMIT w).

Ltac split_loop H :=
  repeat match type of H with
         | context [match ?x with _ => _ end] => destruct x eqn:?
         end.

Ltac measure :=
  unfold entries_at_end;
  cbn [end_state thrown events st_timeline addTimeline broadcast initial_state];
  rewrite ?started_snoc, ?ci_passes_snoc, ?length_app;
  change (iterations_started []) with 0%nat;
  change (ci_passes []) with 0%nat;
  cbn [is_iteration_start status length];
  try lia.

(** The accounts of the fix loop: every turn announces itself once and
    leaves one timeline entry (the [catch] block adds it when the turn
    throws), and a passed CI run leaves one more. *)
Lemma fix_loop_counts (fuel : nat) (i : Z) (repoDir out : jsstring) (st : state) :
  let e := loop fuel i repoDir out st in
  (entries_at_end e + iterations_started (events st) + ci_passes (st_timeline st)
   = length (st_timeline st) + iterations_started (events (end_state e))
     + ci_passes (st_timeline (end_state e)))%nat /\
  (iterations_started (events (end_state e))
   <= iterations_started (events st) + fuel)%nat /\
  (ci_passes (st_timeline (end_state e)) <= ci_passes (st_timeline st) + 1)%nat.
Proof.
  cbv zeta. remember (loop fuel i repoDir out st) as e eqn:He. symmetry in He.
  revert i out st e He. induction fuel as [|fuel IH]; intros i out st e He.
  - cbn in He. subst e. measure.
  - cbn [fix_loop] in He. split_loop He;
      first [ solve [subst e; measure]
            | solve [apply IH in He; revert He; measure] ].
Qed.




Local Abbreviation run_of fs0 runId url team leader :=
  (run unicode_upper cwd JSON_parse GEMINI_MODEL RETRY_LIMIT w fs0 runId url team leader).

Lemma try_block_accounts (runId : jsstring) (fs0 : FS) :
  let e := fst (try_block cwd JSON_parse GEMINI_MODEL RETRY_LIMIT w runId
                  (broadcast (initial_state fs0) pipeline_start)) in
  (entries_at_end e
   = 1 + iterations_started (events (end_state e))
     + ci_passes (st_timeline (end_state e)))%nat /\
  (iterations_started (events (end_state e)) <= Z.to_nat RETRY_LIMIT)%nat /\
  (ci_passes (st_timeline (end_state e)) <= 1)%nat.
Proof.
  cbv zeta. unfold try_block.
  destruct (Analyzer.analyze _ _ _ _ _ _ _ _) as [fs1 [a|m]]; cbn [fst].
  - destruct (Analyzer.analysis_passed a); cbn [fst].
    + measure.
    + match goal with
      | |- context [fix_loop _ _ _ _ _ ?fuel ?i ?d ?o ?st] =>
          pose proof (fix_loop_counts fuel i d o st) as H
      end.
      cbv zeta in H. revert H. measure.
  - measure.
Qed.

(** The accounts of a run that settled with a report: the timeline holds
    the entry of the initial analysis, one entry per repair iteration, and
    one more entry if a CI run passed.  The iterations are at most
    RETRY_LIMIT; the iteration count handed to the scoring function is the
    number of timeline entries less one. *)
Lemma run_accounts (fs0 : FS) (runId url team leader : jsstring) (res : results) :
  let r := run_of fs0 runId url team leader in
  settled r = Normal res ->
  (length (timeline res)
   = 1 + iterations_started (broadcasts r) + ci_passes (timeline res))%nat /\
  (iterations_started (broadcasts r) <= Z.to_nat RETRY_LIMIT)%nat /\
  (ci_passes (timeline res) <= 1)%nat /\
  scoreBreakdown res = Scoring.computeScore (score_metrics (report_state r) (elapsed w)) /\
  Scoring.iterationCount (score_metrics (report_state r) (elapsed w))
  = Z.of_nat (iterations_started (broadcasts r) + ci_passes (timeline res)).
Proof.
  cbv zeta. unfold run.
  destruct (parseRepoUrl url) as [rr|m]; [|discriminate].
  pose proof (try_block_accounts runId fs0) as H. cbv zeta in H.
  destruct (try_block _ _ _ _ _ _ _) as [e dir]. cbn [fst] in H.
  destruct (save_results w); [|discriminate].
  cbn [settled broadcasts report_state]. intros [= <-].
  cbn [timeline buildResults scoreBreakdown score_metrics Scoring.iterationCount
       events broadcast].
  rewrite started_snoc. cbn [is_iteration_start].
  unfold entries_at_end in H. destruct (thrown e);
    cbn [st_timeline events addTimeline] in *;
    rewrite ?ci_passes_snoc, ?length_app; cbn [status length];
    repeat split; try reflexivity; lia.
Qed.

(** The timeline of a report never holds more than RETRY_LIMIT + 2
    entries. *)
Lemma timeline_bound (fs0 : FS) (runId url team leader : jsstring) (res : results) :
  settled (run_of fs0 runId url team leader) = Normal res ->
  (length (timeline res) <= Z.to_nat RETRY_LIMIT + 2)%nat.
Proof. intros H. apply run_accounts in H. lia. Qed.

(** *** The working tree at the end of a run *)

Lemma remove_clears (tree : FS) (dir p : jsstring) :
  within dir p = true -> remove tree dir !! p = None.
Proof.
  intros Hp. unfold remove. apply map_lookup_filter_None. right.
  intros x _. cbn. rewrite Hp. discriminate.
Qed.

(** When the analysis returned, the report was saved and the removal went
    through, nothing is left of the working directory. *)
Lemma cleanup_after_analysis (fs0 : FS) (runId url team leader : jsstring)
    (e : try_end) (dir : jsstring) (r : repo_ref) (p : jsstring) :
  parseRepoUrl url = Normal r ->
  try_block cwd JSON_parse GEMINI_MODEL RETRY_LIMIT w runId
    (broadcast (initial_state fs0) pipeline_start) = (e, Some dir) ->
  save_results w = Normal tt ->
  remove_tree w = Normal tt ->
  within dir p = true ->
  final_fs (run_of fs0 runId url team leader) !! p = None.
Proof.
  intros Hu Ht Hs Hr Hp. unfold run. rewrite Hu, Ht, Hs, Hr. cbn [final_fs].
  apply remove_clears, Hp.
Qed.

(** When both clones fail, the directory [cloneRepo] made stays on disk:
    the cleanup is never reached. *)
Lemma clone_failure_leaves_directory (fs0 : FS) (runId url team leader : jsstring)
    (r : repo_ref) (m1 m2 : jsstring) :
  parseRepoUrl url = Normal r ->
  fs0 !! Analyzer.tmp_dir cwd runId = None ->
  clone_shallow w = Throw m1 ->
  clone_full w = Throw m2 ->
  final_fs (run_of fs0 runId url team leader) !! Analyzer.tmp_dir cwd runId = Some Dir.
Proof.
  intros Hu H0 H1 H2. unfold run. rewrite Hu.
  unfold try_block, Analyzer.analyze, Analyzer.cloneRepo. cbn [fs broadcast initial_state].
  unfold ensureDir. rewrite H0, H1, H2. cbn [thrown end_state].
  destruct (save_results w); cbn [final_fs fs addTimeline broadcast];
    unfold emptyDir; apply lookup_insert_eq.
Qed.

End Run.




(** The degraded scenario, end to end: every model is rate limited, the
    one classified error gets a placeholder, the placeholder is skipped,
    the timeline records APPLY_FAILED and the run fails. *)
Lemma degraded_scenario :
  match settled (sample_run 5 world_exhausted) with
  | Normal res =>
      timeline res = [IterationRecord 0 FAILED; IterationRecord 1 APPLY_FAILED] /\
      map Fixer.status (fixes res) = [Fixer.Skipped] /\
      finalStatus res = FAILED
  | Throw _ => False
  end.
Proof. vm_compute. repeat split. Qed.


(** C2 at the failing input: retry limit 1, the tests fail before and
    after the fix of iteration 1, the CI run of the pushed branch passes.
    Iteration 1 leaves two entries, FAILED and CI_PASSED, and the timeline
    has three entries, one more than RETRY_LIMIT + 1. *)
Theorem C2_timeline_exceeds_bound :
  match settled (sample_run 1 world_ci_green) with
  | Normal res =>
      timeline res = [IterationRecord 0 FAILED; IterationRecord 1 FAILED;
                      IterationRecord 1 CI_PASSED] /\
      (Z.of_nat (length (timeline res)) > 1 + 1)%Z
  | Throw _ => False
  end.
Proof. vm_compute. split; reflexivity. Qed.

(** C4 at the failing input: retry limit 5, the CI run passes in
    iteration 3.  Three repair iterations were executed; the scoring
    function is handed the iteration count 4 and takes the penalty for one
    iteration above 3. *)
Theorem C4_iteration_count_overcounts :
  let r := sample_run 5 world_ci_green_late in
  iterations_started (broadcasts r) = 3%nat /\
  Scoring.iterationCount (score_metrics (report_state r) (elapsed world_ci_green_late))
    = 4%Z /\
  match settled r with
  | Normal res => Scoring.iterationPenalty (scoreBreakdown res) = (-5)%Z
  | Throw _ => False
  end.
Proof. cbv zeta. repeat split; vm_compute; reflexivity. Qed.

(** C7 at the failing input: both attempts to clone fail.  The run emits
    its terminal event and settles with a report, and the working
    directory tmp/run-1, which [cloneRepo] made, is still on disk. *)
Theorem C7_clone_failure_keeps_tmp_dir :
  let r := sample_run 5 world_no_clone in
  (exists res, settled r = Normal res /\ last (broadcasts r) = Some (pipeline_done res)) /\
  run_1_dir = str "/app/tmp/run-1" /\
  final_fs r !! run_1_dir = Some Dir /\
  pathExists (final_fs r) run_1_dir = true.
Proof.
  cbv zeta. split; [|repeat split; vm_compute; reflexivity].
  eexists. split; vm_compute; reflexivity.
Qed.

End OrchestratorFacts.

(** * Properties of the rest of the code *)

(** ** Languages, durations and scores *)

Module LanguageFacts.
Import JS Text Languages.

Lemma array_includes_In (names : list jsstring) (name : jsstring) :
  array_includes names name = true <-> In name names.
Proof.
  unfold array_includes. rewrite existsb_exists. split.
  - intros (x & Hx & E). unfold eqb_str in E. apply bool_decide_eq_true in E. congruence.
  - intros H. exists name. split; [exact H|]. apply bool_decide_eq_true. reflexivity.
Qed.

(** X1: a repository whose top level holds [package.json], in any mix of
    upper and lower case, is detected as a node project, whatever other
    marker files it holds and whatever the engine does to names outside
    ASCII. *)
Theorem X1_package_json_wins (unicode_lower : jsstring -> jsstring)
    (files : list jsstring) (name : jsstring) :
  In name files ->
  is_ascii name = true ->
  map ascii_lower name = str "package.json" ->
  detectLanguage unicode_lower files = node.
Proof.
  intros Hin Ha Hl. unfold detectLanguage. cbv zeta.
  assert (array_includes (map (toLowerCase unicode_lower) files) (str "package.json") = true)
    as ->; [|reflexivity].
  apply array_includes_In, in_map_iff. exists name. split; [|exact Hin].
  unfold toLowerCase. rewrite Ha. exact Hl.
Qed.

Lemma X1_witness :
  detectLanguage (fun s => s) [str "requirements.txt"; str "Package.JSON"; str "go.mod"] = node.
Proof.
  apply (X1_package_json_wins (fun s => s) _ (str "Package.JSON")).
  - right; left; reflexivity.
  - reflexivity.
  - reflexivity.
Defined.

(** Whatever the top-level files are, the command sent to the sandbox
    for the detected runtime is never empty: it is the install command,
    [ && ] and the test command, or, for the runtimes without an install
    command, the test command alone, without a dangling [&&]. *)
Theorem sandbox_command (unicode_lower : jsstring -> jsstring) (files : list jsstring) :
  let rt := getRuntime (detectLanguage unicode_lower files) in
  fullCmd rt <> [] /\
  fullCmd rt
  = match installCmd rt with
    | [] => testCmd rt
    | _ => installCmd rt ++ str " && " ++ testCmd rt
    end.
Proof.
  cbv zeta. destruct (detectLanguage unicode_lower files);
    split; try discriminate; reflexivity.
Qed.

End LanguageFacts.

Module DurationFacts.
Import JS Text Duration.

(** For a non-negative duration, [formatDuration] splits the rounded
    seconds into minutes and a seconds field between 0 and 59, prints the
    minutes only when there is at least one, and, under 59.5 seconds,
    prints the seconds alone. *)
Theorem formatDuration_splits (ms : Z) :
  (0 <= ms)%Z ->
  let t := ((ms + 500) / 1000)%Z in
  (0 <= t mod 60 < 60)%Z /\
  (t = 60 * (t / 60) + t mod 60)%Z /\
  formatDuration ms
  = (if (t <? 60)%Z
     then string_of_N (Z.to_N t) ++ str "s"
     else string_of_N (Z.to_N (t / 60)) ++ str "m "
          ++ string_of_N (Z.to_N (t mod 60)) ++ str "s").
Proof.
  intros Hms t.
  assert (0 <= t)%Z as Ht by (apply Z.div_pos; lia).
  split; [apply Z.mod_pos_bound; lia|].
  split; [apply Z.div_mod; lia|].
  unfold formatDuration. fold t. unfold round_seconds. fold t.
  rewrite Z.rem_mod_nonneg by lia.
  assert (forall z, (0 <= z)%Z -> string_of_Z z = string_of_N (Z.to_N z)) as Hs.
  { intros z Hz. destruct z; try reflexivity. lia. }
  destruct (Z.ltb_spec t 60) as [Hlt|Hge].
  - rewrite Z.div_small by lia. cbn [Z.gtb Z.compare]. rewrite Z.mod_small by lia.
    rewrite Hs by lia. reflexivity.
  - assert (0 < t / 60)%Z as Hq by (apply Z.div_str_pos; lia).
    rewrite (proj2 (Z.gtb_lt _ _)) by lia.
    rewrite !Hs by (try lia; apply Z.mod_pos_bound; lia). reflexivity.
Qed.

Lemma formatDuration_example :
  formatDuration 272400
  = string_of_N 4 ++ str "m " ++ string_of_N 32 ++ str "s".
Proof.
  assert (0 <= 272400)%Z as H by lia.
  exact (proj2 (proj2 (formatDuration_splits 272400 H))).
Defined.

End DurationFacts.

Module ScoreFacts.
Import Scoring Frontend.

(** X2: the total score lies between 0 and 150, whatever the metrics. *)
Theorem X2_total_range (m : metrics) :
  (0 <= total (computeScore m) <= 150)%Z.
Proof.
  unfold computeScore; cbn [total].
  destruct (totalTime m <? 300000)%Z, (Z.gtb_spec (commitCount m) 20),
    (Z.gtb_spec (iterationCount m) 3); lia.
Qed.

(** X3: the score is monotone: a run that took no longer, made no more
    commits, needed no more iterations and applied no fewer fixes never
    scores lower. *)
Theorem X3_score_monotone (m m' : metrics) :
  (totalTime m <= totalTime m')%Z ->
  (commitCount m <= commitCount m')%Z ->
  (iterationCount m <= iterationCount m')%Z ->
  (fixCount m' <= fixCount m)%Z ->
  (total (computeScore m') <= total (computeScore m))%Z.
Proof.
  intros Ht Hc Hi Hf. unfold computeScore; cbn [total].
  destruct (Z.ltb_spec (totalTime m) 300000), (Z.ltb_spec (totalTime m') 300000),
    (Z.gtb_spec (commitCount m) 20), (Z.gtb_spec (commitCount m') 20),
    (Z.gtb_spec (iterationCount m) 3), (Z.gtb_spec (iterationCount m') 3); lia.
Qed.

Lemma X3_witness :
  (total (computeScore (Metrics 400000 25 10 5))
   <= total (computeScore (Metrics 200000 21 12 3)))%Z.
Proof. apply X3_score_monotone; cbn; lia. Defined.

(** X4: the score card of the frontend shows the two penalties as the
    positive amounts max(0, commitCount - 20) * 2 and
    max(0, iterationCount - 3) * 5, and its final score is
    max(0, base + speed bonus + fix bonus - the two penalties). *)
Theorem X4_score_card (m : metrics) :
  let v := score_fields (Some (computeScore m)) in
  efficiencyPenalty v = (Z.max 0 (commitCount m - 20) * 2)%Z /\
  Frontend.iterationPenalty v = (Z.max 0 (iterationCount m - 3) * 5)%Z /\
  finalScore v
  = Z.max 0 (baseScore v + Frontend.speedBonus v + Frontend.fixBonus v
             - efficiencyPenalty v - Frontend.iterationPenalty v).
Proof.
  cbv zeta. unfold score_fields, computeScore.
  cbn [base Scoring.speedBonus Scoring.fixBonus commitPenalty Scoring.iterationPenalty total
       baseScore Frontend.speedBonus Frontend.fixBonus efficiencyPenalty
       Frontend.iterationPenalty finalScore].
  destruct (Z.gtb_spec (commitCount m) 20), (Z.gtb_spec (iterationCount m) 3); lia.
Qed.

End ScoreFacts.

(** ** More on the classifier *)

Module ClassifierMore.
Import JS Regex Classifier ClassifierInvariant RegexFacts.

Lemma drop_while_idem (p : N -> bool) (s : jsstring) :
  drop_while p (drop_while p s) = drop_while p s.
Proof.
  induction s as [|x s IH]; [reflexivity|]. cbn. destruct (p x) eqn:Hp; [exact IH|].
  cbn. rewrite Hp. reflexivity.
Qed.

Lemma drop_while_suffix (p : N -> bool) (s : jsstring) :
  exists run, s = run ++ drop_while p s.
Proof.
  induction s as [|x s [run E]]; [exists []; reflexivity|]. cbn.
  destruct (p x); [exists (x :: run); cbn; congruence | exists []; reflexivity].
Qed.

Lemma drop_while_head_false (p : N -> bool) (s : jsstring) :
  match drop_while p s with
  | [] => True
  | x :: _ => p x = false
  end.
Proof.
  induction s as [|x s IH]; [exact I|]. cbn. destruct (p x) eqn:Hp; [exact IH | exact Hp].
Qed.

(** [trimEnd] keeps a head that is no whitespace. *)
Lemma trimEnd_head (t : jsstring) :
  match t with [] => True | x :: _ => is_space x = false end ->
  match trimEnd t with [] => True | x :: _ => is_space x = false end.
Proof.
  intros Ht. unfold trimEnd.
  destruct (drop_while_suffix is_space (rev t)) as [run E].
  apply (f_equal (@rev N)) in E. rewrite rev_involutive, rev_app_distr in E.
  destruct (rev (drop_while is_space (rev t))) as [|y u]; [exact I|].
  rewrite E in Ht. exact Ht.
Qed.

Lemma trim_trim (s : jsstring) : trim (trim s) = trim s.
Proof.
  unfold trim at 1. unfold trimStart.
  pose proof (trimEnd_head (trimStart s) (drop_while_head_false is_space s)) as H.
  fold (trim s) in H.
  assert (drop_while is_space (trim s) = trim s) as ->.
  { destruct (trim s) as [|x u]; [reflexivity|]. cbn. rewrite H. reflexivity. }
  unfold trim, trimEnd. rewrite rev_involutive, drop_while_idem. reflexivity.
Qed.

(** X5: every record the classifier returns carries a raw message that is
    not empty and has no whitespace at either end. *)
Theorem X5_raw_message_trimmed (rawLog : jsstring) (r : error_record) :
  In r (parseErrorLog rawLog) ->
  rawMessage r <> [] /\ trim (rawMessage r) = rawMessage r.
Proof.
  intros Hin.
  assert (Forall (kept_for_a_reason (log_lines rawLog)) (parseErrorLog rawLog)) as Hall.
  { unfold parseErrorLog. apply ClassifierFacts.fold_parse_keeps; [tauto | constructor]. }
  rewrite List.Forall_forall in Hall. destruct (Hall r Hin) as (line & Hl & -> & _).
  unfold log_lines in Hl. apply List.filter_In in Hl as [_ Hl].
  split; [|apply trim_trim]. destruct (trim line); [discriminate | discriminate].
Qed.

Lemma X5_witness :
  str "Error: boom" <> [] /\ trim (str "Error: boom") = str "Error: boom".
Proof.
  apply (X5_raw_message_trimmed (str "  Error: boom  ")
           (ErrorRecord UNKNOWN None None (str "Error: boom"))).
  vm_compute. left; reflexivity.
Defined.

(** The key of a record, as the loop builds it. *)
Local Abbreviation key_of r := (dedup_key (file r) (lineNumber r) (bugType r)).

Lemma parse_step_keys st line :
  (forall k, k ∈ fst st <-> In k (map (fun r => key_of r) (snd st))) ->
  List.NoDup (map (fun r => key_of r) (snd st)) ->
  (forall k, k ∈ fst (parse_step st line)
             <-> In k (map (fun r => key_of r) (snd (parse_step st line)))) /\
  List.NoDup (map (fun r => key_of r) (snd (parse_step st line))).
Proof.
  intros Hseen Hnd. destruct st as [seen errors]. unfold parse_step.
  destruct (_ && _ && _); [split; assumption|].
  destruct (bool_decide _) eqn:Hk; [split; assumption|].
  apply bool_decide_eq_false in Hk. cbn [fst snd] in *.
  rewrite map_app. cbn [map file lineNumber bugType]. split.
  - intros k. rewrite elem_of_union, elem_of_singleton, in_app_iff, Hseen. cbn.
    intuition congruence.
  - apply NoDup_ListNoDup, NoDup_app. repeat split.
    + apply NoDup_ListNoDup, Hnd.
    + intros k Hk1 Hk2. apply list_elem_of_singleton in Hk2. subst k.
      apply Hk, Hseen, list_elem_of_In, Hk1.
    + apply NoDup_singleton.
Qed.

Lemma fold_parse_keys lines st :
  (forall k, k ∈ fst st <-> In k (map (fun r => key_of r) (snd st))) ->
  List.NoDup (map (fun r => key_of r) (snd st)) ->
  List.NoDup (map (fun r => key_of r) (snd (fold_left parse_step lines st))).
Proof.
  revert st. induction lines as [|l lines IH]; intros st Hs Hn; [exact Hn|].
  cbn [fold_left]. destruct (parse_step_keys st l Hs Hn) as [Hs' Hn']. apply IH; assumption.
Qed.

(** X6: the records of one log are deduplicated: no two of them have the
    same key made of file, line and kind. *)
Theorem X6_no_duplicate_keys (rawLog : jsstring) :
  List.NoDup (map (fun r => dedup_key (file r) (lineNumber r) (bugType r))
                  (parseErrorLog rawLog)).
Proof.
  unfold parseErrorLog. apply fold_parse_keys; cbn.
  - intros k. rewrite elem_of_empty. tauto.
  - constructor.
Qed.

(** The rules are tried in declaration order and the first one that
    matches decides: a line that mentions [SyntaxError] is classified
    SYNTAX, whatever stands before and after it (a trigger of a later rule
    included). *)
Theorem syntax_rule_first (pre post : jsstring) :
  classifyError (pre ++ str "SyntaxError" ++ post) = SYNTAX.
Proof.
  unfold classifyError, PATTERNS. cbn [first_match].
  assert (test (alts [LitI (str "SyntaxError"); LitI (str "unexpected token");
                      LitI (str "invalid syntax"); LitI (str "EOL while scanning")])
               (pre ++ str "SyntaxError" ++ post) = true) as ->; [|reflexivity].
  unfold test. apply bool_decide_eq_true. unfold exec.
  apply RoutesFacts.exec_from_Some. exists pre, (str "SyntaxError" ++ post).
  split; [reflexivity|]. exists (post, []). vm_compute. reflexivity.
Qed.

End ClassifierMore.

(** ** More on the Fix Generator and the Patch Applier *)

Module FixerMore.
Import JS Regex Helpers FileSystem Fixer.

(** *** The fallback chain *)

Lemma try_model_sound (llm : nat -> completion jsstring) (attempt fuel : nat) :
  (attempt + fuel <= 4)%nat ->
  (1 <= attempt)%nat ->
  match try_model llm attempt fuel with
  | Responded c => exists a, (1 <= a <= 3)%nat /\ llm a = Normal c
  | Errored m => exists a, (1 <= a <= 3)%nat /\ llm a = Throw m /\ is429 m = false
  | Exhausted => True
  end.
Proof.
  revert attempt. induction fuel as [|fuel IH]; intros attempt Hb Ha; [exact I|].
  cbn [try_model]. destruct (llm attempt) as [c|m] eqn:E.
  - exists attempt. split; [lia | exact E].
  - destruct (is429 m) eqn:H429; cbn [andb].
    + destruct (Nat.ltb_spec attempt 3); [|exact I]. apply IH; lia.
    + exists attempt. split; [lia|]. split; assumption.
Qed.

(** X7: the fallback chain invents nothing and hides nothing but rate
    limits: a response it returns is the response of one of the declared
    models at one of its three attempts, and an error it throws is either
    the all-models-exhausted error or an error one of those attempts threw
    that does not indicate a rate limit. *)
Theorem X7_fallback_sound (GEMINI_MODEL : option jsstring)
    (llm : jsstring -> nat -> completion jsstring) :
  match _invokeWithFallback GEMINI_MODEL llm with
  | Normal c =>
      exists model a,
        In model (FALLBACK_MODELS GEMINI_MODEL) /\ (1 <= a <= 3)%nat /\
        llm model a = Normal c
  | Throw m =>
      m = all_exhausted_message \/
      exists model a,
        In model (FALLBACK_MODELS GEMINI_MODEL) /\ (1 <= a <= 3)%nat /\
        llm model a = Throw m /\ is429 m = false
  end.
Proof.
  unfold _invokeWithFallback. induction (FALLBACK_MODELS GEMINI_MODEL) as [|model models IH].
  - left; reflexivity.
  - cbn [invoke_models].
    pose proof (try_model_sound (llm model) 1 3 ltac:(lia) ltac:(lia)) as H.
    destruct (try_model (llm model) 1 3) as [c| |m].
    + destruct H as (a & Ha & E). exists model, a. split; [left; reflexivity | auto].
    + destruct (invoke_models llm models) as [c|m].
      * destruct IH as (model' & a & Hin & Ha). exists model', a. split; [right; exact Hin | exact Ha].
      * destruct IH as [->|(model' & a & Hin & Ha)]; [left; reflexivity|].
        right. exists model', a. split; [right; exact Hin | exact Ha].
    + destruct H as (a & Ha & E & H429). right. exists model, a.
      split; [left; reflexivity | auto].
Qed.

(** A model that is rate limited on its three attempts is given up
    and the next one is asked: when the first declared model only ever
    reports a rate limit and the second answers at its first attempt, the
    chain returns that answer. *)
Theorem next_model_asked (llm : jsstring -> nat -> completion jsstring) (answer : jsstring) :
  (forall attempt, exists m,
      llm (str "gemini-2.5-flash-lite") attempt = Throw m /\ is429 m = true) ->
  llm (str "gemini-2.5-flash") 1%nat = Normal answer ->
  _invokeWithFallback None llm = Normal answer.
Proof.
  intros H1 H2. unfold _invokeWithFallback, FALLBACK_MODELS. cbn [invoke_models].
  rewrite FixerFacts.try_model_rate_limited by exact H1.
  cbn [try_model]. rewrite H2. reflexivity.
Qed.

Lemma next_model_example :
  _invokeWithFallback None
    (fun model _ => if bool_decide (model = str "gemini-2.5-flash")
                    then Normal (str "[]") else Throw (str "quota exceeded"))
  = Normal (str "[]").
Proof.
  apply next_model_asked.
  - intros attempt. exists (str "quota exceeded"). split; vm_compute; reflexivity.
  - vm_compute. reflexivity.
Defined.

(** *** The Patch Applier on a whole list *)

Section Applier.
Variable cwd : jsstring.

Lemma apply_fix_proposal (fs : FS) (repoDir : jsstring) (fx : fix_proposal) :
  proposal (snd (apply_fix cwd fs repoDir fx)) = fx.
Proof.
  unfold apply_fix, applied.
  repeat match goal with
         | |- context [match ?x with _ => _ end] => destruct x
         end; reflexivity.
Qed.


(** What one turn does to the tree: nothing, or it rewrites the regular
    file at the resolved path of a proposal it marks Fixed. *)
Lemma apply_fix_effect (fs : FS) (repoDir : jsstring) (fx : fix_proposal) :
  fst (apply_fix cwd fs repoDir fx) = fs \/
  exists old new,
    status (snd (apply_fix cwd fs repoDir fx)) = Fixed /\
    fs !! path_resolve cwd repoDir (default [] (file fx)) = Some (File old) /\
    fst (apply_fix cwd fs repoDir fx)
    = <[ path_resolve cwd repoDir (default [] (file fx)) := File new ]> fs.
Proof.
  unfold apply_fix, applied, readFile, writeFile. cbv zeta.
  destruct (falsy (file fx) || falsy (originalCode fx) || falsy (fixedCode fx));
    [left; reflexivity|].
  destruct (negb (pathExists fs _)); [left; reflexivity|].
  destruct (fs !! path_resolve cwd repoDir (default [] (file fx))) as [[old|]|] eqn:E;
    try (left; reflexivity).
  destruct (negb (includes _ old)).
  - destruct (lineNumber fx) as [n|]; [|left; reflexivity].
    destruct (negb (n =? 0)%Z && _); [|left; reflexivity].
    right. eexists old, _. repeat split.
  - right. eexists old, _. repeat split.
Qed.

(** X9: the Patch Applier neither creates nor deletes anything: after it
    ran, a path exists exactly if it existed before, and a directory is
    still a directory. *)
Theorem X9_no_path_created (fs : FS) (fixes : list fix_proposal) (repoDir p : jsstring) :
  let fs' := fst (applyFixes cwd fs fixes repoDir) in
  (is_Some (fs' !! p) <-> is_Some (fs !! p)) /\
  (fs' !! p = Some Dir <-> fs !! p = Some Dir).
Proof.
  cbv zeta. revert fs. induction fixes as [|fx fixes IH]; intros fs; [tauto|].
  cbn [applyFixes]. pose proof (apply_fix_effect fs repoDir fx) as H.
  destruct (apply_fix cwd fs repoDir fx) as [fs1 r]. specialize (IH fs1).
  destruct (applyFixes cwd fs1 fixes repoDir) as [fs2 rs]. cbn [fst snd] in *.
  destruct H as [->|(old & new & _ & Hold & ->)]; [exact IH|].
  destruct IH as [IH1 IH2]. rewrite IH1, IH2.
  destruct (decide (path_resolve cwd repoDir (default [] (file fx)) = p)) as [<-|Hne].
  - rewrite lookup_insert_eq, Hold. split; [split; eauto | split; discriminate].
  - rewrite lookup_insert_ne by exact Hne. tauto.
Qed.

(** X10: patch safety: a path that is not the resolved target of a
    proposal marked Fixed has, after the Patch Applier ran, the content it
    had before. *)
Theorem X10_untargeted_paths_unchanged (fs : FS) (fixes : list fix_proposal)
    (repoDir p : jsstring) :
  (forall a, In a (snd (applyFixes cwd fs fixes repoDir)) ->
             status a = Fixed ->
             path_resolve cwd repoDir (default [] (file (proposal a))) <> p) ->
  fst (applyFixes cwd fs fixes repoDir) !! p = fs !! p.
Proof.
  revert fs. induction fixes as [|fx fixes IH]; intros fs Hp; [reflexivity|].
  cbn [applyFixes] in *. pose proof (apply_fix_effect fs repoDir fx) as H.
  pose proof (apply_fix_proposal fs repoDir fx) as Hfx.
  destruct (apply_fix cwd fs repoDir fx) as [fs1 r]. specialize (IH fs1).
  destruct (applyFixes cwd fs1 fixes repoDir) as [fs2 rs]. cbn [fst snd] in *.
  rewrite IH by (intros a Ha; apply Hp; right; exact Ha).
  destruct H as [->|(old & new & Hst & _ & ->)]; [reflexivity|].
  apply lookup_insert_ne. rewrite <- Hfx. apply Hp; [left; reflexivity | exact Hst].
Qed.

(** *** The two ways to patch a file *)

Lemma starts_with_split (p s : jsstring) :
  starts_with p s = true -> s = p ++ drop (length p) s.
Proof.
  intros H. pose proof (RoutesFacts.strip_prefix_starts p s) as E. rewrite H in E.
  apply RoutesFacts.strip_prefix_Some in E. exact E.
Qed.

Lemma index_of_split (p s : jsstring) (i : nat) :
  index_of p s = Some i ->
  s = take i s ++ p ++ drop (i + length p) s.
Proof.
  revert i. induction s as [|x s IH]; intros i; cbn [index_of].
  - destruct (starts_with p []) eqn:E; [|discriminate].
    intros [= <-]. apply starts_with_split in E. exact E.
  - destruct (starts_with p (x :: s)) eqn:E.
    + intros [= <-]. apply starts_with_split in E. exact E.
    + destruct (index_of p s) as [j|]; [|discriminate]. cbn. intros [= <-].
      cbn. f_equal. apply IH. reflexivity.
Qed.

Lemma includes_index_of (p s : jsstring) :
  includes p s = true -> exists i, index_of p s = Some i.
Proof.
  induction s as [|x s IH]; cbn [includes index_of].
  - rewrite orb_false_r. intros ->. eauto.
  - destruct (starts_with p (x :: s)); [eauto|]. cbn [orb]. intros H.
    destruct (IH H) as [i ->]. cbn. eauto.
Qed.

Lemma expand_without_dollar (before matched after rep : jsstring) :
  Forall (fun c => c <> 36%N) rep ->
  expand_replacement before matched after rep = rep.
Proof.
  induction 1 as [|c rep Hc _ IH]; [reflexivity|]. cbn [expand_replacement].
  rewrite (proj2 (N.eqb_neq c 36) Hc). rewrite IH. reflexivity.
Qed.

Lemma split_on_without (sep : N) (l rest : jsstring) :
  Forall (fun c => c <> sep) l ->
  split_on sep (l ++ sep :: rest) = l :: split_on sep rest /\ split_on sep l = [l].
Proof.
  induction 1 as [|c l Hc _ [IH1 IH2]]; cbn [app split_on].
  - rewrite N.eqb_refl. split; reflexivity.
  - rewrite (proj2 (N.eqb_neq c sep) Hc), IH1, IH2. split; reflexivity.
Qed.

Lemma split_on_clean (sep : N) (s : jsstring) :
  Forall (Forall (fun c => c <> sep)) (split_on sep s).
Proof.
  induction s as [|c s IH]; cbn [split_on]; [repeat constructor|].
  destruct (N.eqb_spec c sep) as [->|Hc]; [constructor; [constructor | exact IH]|].
  destruct (split_on sep s) as [|l ls]; [repeat constructor; exact Hc|].
  inversion IH; subst. constructor; [constructor; assumption | assumption].
Qed.

(** Joining lines that hold no line feed and splitting again gives the
    lines back. *)
Lemma split_join (ls : list jsstring) :
  ls <> [] ->
  Forall (Forall (fun c => c <> 10%N)) ls ->
  split_on 10 (join [10%N] ls) = ls.
Proof.
  intros Hne H. induction H as [|l ls Hl Hls IH]; [congruence|].
  destruct ls as [|l' ls].
  - apply (split_on_without 10 l []), Hl.
  - change (join [10%N] (l :: l' :: ls)) with (l ++ 10%N :: join [10%N] (l' :: ls)).
    rewrite (proj1 (split_on_without 10 l _ Hl)). rewrite IH by discriminate.
    reflexivity.
Qed.

Section OneFile.
Variable fs : FS.
Variable repoDir : jsstring.
Variable fx : fix_proposal.
Variables f original fixed content : jsstring.
Hypothesis Hfile : file fx = Some f.
Hypothesis Horiginal : originalCode fx = Some original.
Hypothesis Hfixed : fixedCode fx = Some fixed.
Hypothesis Hf : f <> [].
Hypothesis Ho : original <> [].
Hypothesis Hfx : fixed <> [].
Hypothesis Hcontent : fs !! path_resolve cwd repoDir f = Some (File content).

(** X11: when the original code occurs in the file and the fixed code
    holds no dollar sign, the first occurrence, and only it, is replaced
    by the fixed code, and the proposal is marked Fixed. *)
Theorem X11_first_occurrence_replaced :
  includes original content = true ->
  Forall (fun c => c <> 36%N) fixed ->
  exists pre post,
    content = pre ++ original ++ post /\
    index_of original content = Some (length pre) /\
    apply_fix cwd fs repoDir fx
    = (<[ path_resolve cwd repoDir f := File (pre ++ fixed ++ post) ]> fs,
       AppliedFix fx Fixed None).
Proof using All.
  intros Hinc Hd. destruct (includes_index_of _ _ Hinc) as [i Hi].
  pose proof (index_of_split _ _ _ Hi) as Hsplit.
  assert (i <= length content)%nat as Hlen.
  { apply (f_equal (@length N)) in Hsplit. rewrite !length_app, length_take in Hsplit.
    destruct original; [congruence|]. cbn in Hsplit. lia. }
  exists (take i content), (drop (i + length original) content).
  split; [exact Hsplit|]. split; [rewrite length_take; rewrite Hi; f_equal; lia|].
  unfold apply_fix. rewrite Hfile, Horiginal, Hfixed. cbn [default from_option id].
  destruct f as [|? ?]; [congruence|]. destruct original as [|? ?]; [congruence|].
  destruct fixed as [|? ?]; [congruence|]. cbn [falsy orb]. cbv zeta.
  unfold pathExists, readFile, writeFile. rewrite Hcontent.
  rewrite bool_decide_eq_true_2 by eauto. cbn [negb]. rewrite Hinc. cbn [negb].
  unfold replace_first. rewrite Hi. rewrite expand_without_dollar by exact Hd.
  reflexivity.
Qed.

(** X12: when the original code does not occur in the file and the line
    number lies within the file, the file afterwards has the same number
    of lines, the fixed code (if it holds no line feed) on that line, and
    every other line as before. *)
Theorem X12_line_overwritten (n : Z) :
  includes original content = false ->
  lineNumber fx = Some n ->
  (1 <= n <= Z.of_nat (length (split_on 10 content)))%Z ->
  Forall (fun c => c <> 10%N) fixed ->
  exists content',
    apply_fix cwd fs repoDir fx
    = (<[ path_resolve cwd repoDir f := File content' ]> fs, AppliedFix fx Fixed None) /\
    split_on 10 content' = <[ Z.to_nat (n - 1) := fixed ]> (split_on 10 content).
Proof using All.
  intros Habs Hn Hb Hlf. eexists. split.
  - apply (FixerFacts.line_fallback_in_bounds cwd (fun _ => Normal []) None
             fs repoDir fx f original fixed content); eassumption.
  - destruct (FixerFacts.split_on_cons 10 content) as (l & ls & E).
    pose proof (split_on_clean 10 content) as Hclean. rewrite E in *.
    apply split_join.
    + intros Hnil. apply (f_equal (@length jsstring)) in Hnil.
      rewrite length_insert in Hnil. discriminate.
    + apply Forall_insert; assumption.
Qed.

End OneFile.

End Applier.

Lemma X10_witness :
  fst (applyFixes Samples.app_dir Samples.cloned [Samples.add_colon] Samples.run_1_dir)
    !! Samples.run_1_dir
  = Samples.cloned !! Samples.run_1_dir.
Proof.
  apply X10_untargeted_paths_unchanged.
  intros a [<-|[]] _. vm_compute. discriminate.
Defined.


Lemma X11_witness :
  exists pre post,
    str "def f()" ++ [10%N] ++ str "    return 1" = pre ++ str "def f()" ++ post /\
    index_of (str "def f()") (str "def f()" ++ [10%N] ++ str "    return 1")
    = Some (length pre) /\
    apply_fix Samples.app_dir Samples.cloned Samples.run_1_dir Samples.add_colon
    = (<[ path_resolve Samples.app_dir Samples.run_1_dir (str "a.py")
          := File (pre ++ str "def f():" ++ post) ]> Samples.cloned,
       AppliedFix Samples.add_colon Fixed None).
Proof.
  apply (X11_first_occurrence_replaced Samples.app_dir Samples.cloned Samples.run_1_dir
           Samples.add_colon (str "a.py") (str "def f()") (str "def f():")
           (str "def f()" ++ [10%N] ++ str "    return 1"));
    try reflexivity; try discriminate.
  vm_compute. repeat constructor; discriminate.
Defined.

Lemma X12_witness :
  exists content',
    apply_fix Samples.app_dir Samples.cloned Samples.run_1_dir
      (FixProposal (Some (str "a.py")) (Some 2%Z) None None
                   (Some (str "return 2")) (Some (str "    return 3")) None)
    = (<[ path_resolve Samples.app_dir Samples.run_1_dir (str "a.py")
          := File content' ]> Samples.cloned,
       AppliedFix (FixProposal (Some (str "a.py")) (Some 2%Z) None None
                     (Some (str "return 2")) (Some (str "    return 3")) None)
                  Fixed None) /\
    split_on 10 content'
    = <[ Z.to_nat (2 - 1) := str "    return 3" ]>
        (split_on 10 (str "def f()" ++ [10%N] ++ str "    return 1")).
Proof.
  apply (X12_line_overwritten Samples.app_dir Samples.cloned Samples.run_1_dir
           _ (str "a.py") (str "return 2") (str "    return 3")
           (str "def f()" ++ [10%N] ++ str "    return 1"));
    try reflexivity; try discriminate.
  - vm_compute. split; discriminate.
  - vm_compute. repeat constructor; discriminate.
Defined.

End FixerMore.

(** ** More on the sandbox and the Analyzer *)

Module SandboxMore.
Import JS Helpers Docker Analyzer.

Lemma slice_last_length (n : N) (s : jsstring) :
  (N.of_nat (length (slice_last n s)) <= n)%N.
Proof. unfold slice_last. rewrite length_drop. lia. Qed.

Lemma truncate_length (s : jsstring) :
  (N.of_nat (length (truncate s)) <= MAX_OUTPUT)%N.
Proof.
  unfold truncate. destruct (N.ltb_spec MAX_OUTPUT (N.of_nat (length s))).
  - apply slice_last_length.
  - assumption.
Qed.

Lemma tail_or_empty_length (o : option jsstring) :
  (N.of_nat (length (tail_or_empty o)) <= MAX_OUTPUT)%N.
Proof.
  destruct o as [s|]; cbn [tail_or_empty]; [apply slice_last_length|].
  cbn. unfold MAX_OUTPUT. lia.
Qed.

(** X13: in both modes, each stream of a result the sandbox returns holds
    at most 50000 code units. *)
Theorem X13_streams_bounded (env : sandbox_env) :
  match runInDocker env with
  | Normal r =>
      (N.of_nat (length (stdout r)) <= 50000)%N /\
      (N.of_nat (length (stderr r)) <= 50000)%N
  | Throw _ => True
  end.
Proof.
  destruct env as [c|cb]; cbn [runInDocker].
  - unfold _runInDockerContainer.
    destruct (match inspect_image c with Normal _ => _ | Throw _ => _ end); [|exact I].
    destruct (create_container c); [|exact I]. cbn [stdout stderr].
    split; apply truncate_length.
  - cbn [_runNative stdout stderr]. split; apply tail_or_empty_length.
Qed.

(** X14: in container mode, once the image is there and the container is
    created, the call returns whatever happens next: a failure to attach,
    to start or to wait is reported as exit code 1 with the text of the
    error (its last 50000 code units) on stderr and nothing on stdout. *)
Theorem X14_container_failures_reported (env : container_env) :
  (inspect_image env = Normal tt \/ pull_image env = Normal tt) ->
  create_container env = Normal tt ->
  (exists r, _runInDockerContainer env = Normal r) /\
  forall m,
    (attach env = Throw m \/
     (attach env = Normal tt /\ start env = Throw m) \/
     (attach env = Normal tt /\ start env = Normal tt /\ race env = WaitRejected m)) ->
    _runInDockerContainer env = Normal (ExecResult (ExitNum 1) [] (truncate m)).
Proof.
  intros Himg Hc. unfold _runInDockerContainer. rewrite Hc.
  assert (match inspect_image env with Normal _ => Normal tt | Throw _ => pull_image env end
          = Normal tt) as ->.
  { destruct Himg as [-> | Hp]; [reflexivity|].
    destruct (inspect_image env); [reflexivity | exact Hp]. }
  split; [eauto|]. intros m H. unfold run_container.
  destruct H as [-> | [[-> ->] | (-> & -> & ->)]]; reflexivity.
Qed.

Lemma X14_witness :
  _runInDockerContainer
    (ContainerEnv (Normal tt) (Normal tt) (Normal tt) (Normal tt)
                  (Throw (str "cannot start")) TimerFired (Normal tt) [] [] (Normal tt))
  = Normal (ExecResult (ExitNum 1) [] (truncate (str "cannot start"))).
Proof.
  apply X14_container_failures_reported.
  - left; reflexivity.
  - reflexivity.
  - right; left. split; reflexivity.
Defined.

(** X15: in container mode, the failures before the container exists are
    thrown to the caller, not returned: a failed pull of an image that is
    not there, and a failed creation of the container. *)
Theorem X15_infrastructure_failures_thrown (env : container_env) (m : jsstring) :
  ((exists m0, inspect_image env = Throw m0) /\ pull_image env = Throw m) \/
  ((inspect_image env = Normal tt \/ pull_image env = Normal tt) /\
   create_container env = Throw m) ->
  _runInDockerContainer env = Throw m.
Proof.
  unfold _runInDockerContainer. intros [[[m0 ->] ->] | [Himg ->]]; [reflexivity|].
  destruct Himg as [-> | Hp]; [reflexivity|].
  destruct (inspect_image env); [reflexivity | rewrite Hp; reflexivity].
Qed.

Lemma X15_witness :
  _runInDockerContainer
    (ContainerEnv (Throw (str "no such image")) (Throw (str "pull access denied"))
                  (Normal tt) (Normal tt) (Normal tt) TimerFired (Normal tt) [] []
                  (Normal tt))
  = Throw (str "pull access denied").
Proof.
  apply X15_infrastructure_failures_thrown. left. split; [eexists|]; reflexivity.
Defined.

(** X16: in native mode the tests pass exactly when the command ended
    without an error: an error never yields exit code 0, not even one
    that carries the code 0. *)
Theorem X16_native_pass_iff_no_error (cb : exec_callback) :
  exists t,
    runTests (DockerUnavailable cb) = Normal t /\
    (passed t = true <-> cb_error cb = None).
Proof.
  unfold runTests. cbn [runInDocker _runNative exitCode]. eexists. split; [reflexivity|].
  cbn [passed]. destruct (cb_error cb) as [e|]; [|tauto].
  split; [|discriminate]. destruct (code e) as [n| |[|c s]]; cbn; try discriminate.
  destruct (Z.eqb_spec n 0); [discriminate|]. destruct n; try discriminate. congruence.
Qed.

(** X17: in container mode a timeout makes the Analyzer report failing
    tests with exit code 124, and the log handed to the Fix Generator is
    the timeout marker. *)
Theorem X17_container_timeout_fails_tests (env : container_env) :
  (inspect_image env = Normal tt \/ pull_image env = Normal tt) ->
  create_container env = Normal tt ->
  attach env = Normal tt ->
  start env = Normal tt ->
  race env = TimerFired ->
  runTests (DockerAvailable env) = Normal (TestResult false (ExitNum 124) TIMEOUT_MARKER).
Proof.
  intros Himg Hc Ha Hs Hr. unfold runTests. cbn [runInDocker].
  rewrite (DockerFacts.container_timeout env Himg Hc Ha Hs Hr). reflexivity.
Qed.

Lemma X17_witness :
  runTests (DockerAvailable
    (ContainerEnv (Normal tt) (Normal tt) (Normal tt) (Normal tt) (Normal tt)
                  TimerFired (Normal tt) (str "partial") [] (Normal tt)))
  = Normal (TestResult false (ExitNum 124) TIMEOUT_MARKER).
Proof. apply X17_container_timeout_fails_tests; try reflexivity. left; reflexivity. Defined.

End SandboxMore.

Module DiscoveryFacts.
Import JS Regex Helpers Text Languages Discovery.

(** X18: when there is a token without a dollar sign and the URL begins
    with [https://], the clone URL carries the token and an at-sign right
    after the scheme and is otherwise the URL. *)
Theorem X18_token_injected (token rest : jsstring) :
  token <> [] ->
  Forall (fun c => c <> 36%N) token ->
  clone_url (Some token) (str "https://" ++ rest)
  = str "https://" ++ token ++ str "@" ++ rest.
Proof.
  intros Hne Hd. unfold clone_url. destruct token as [|c t]; [congruence|].
  change (starts_with (str "https://") (str "https://" ++ rest)) with true. cbv iota.
  unfold Fixer.replace_first.
  change (Fixer.index_of (str "https://") (str "https://" ++ rest)) with (Some 0%nat).
  cbv iota. rewrite FixerMore.expand_without_dollar.
  - change (drop (0 + length (str "https://")) (str "https://" ++ rest)) with rest.
    rewrite take_0. cbn [app]. rewrite <- !app_assoc. cbn [app].
    rewrite <- !app_assoc. reflexivity.
  - apply Forall_app. split; [vm_compute; repeat constructor; discriminate|].
    apply Forall_app. split; [exact Hd | vm_compute; repeat constructor; discriminate].
Qed.

Lemma X18_witness :
  clone_url (Some (str "ghp_abc")) (str "https://" ++ str "github.com/o/r")
  = str "https://" ++ str "ghp_abc" ++ str "@" ++ str "github.com/o/r".
Proof.
  apply X18_token_injected; [discriminate|]. vm_compute. repeat constructor; discriminate.
Defined.




End DiscoveryFacts.

(** ** The Committer *)

Module CommitterFacts.
Import JS Helpers Text Committer GitLog.
Local Open Scope Z_scope.

Lemma insert_by_index_perm {A : Type} (i : N) (x : A) (l : list (N * A)) :
  Permutation (insert_by_index i x l) ((i, x) :: l).
Proof.
  induction l as [|[j y] l IH]; cbn; [reflexivity|].
  destruct (i <? j)%N; [reflexivity|].
  rewrite IH. apply perm_swap.
Qed.

(** [Object.entries] shows every entry once. *)
Lemma entries_perm {A : Type} (o : list (jsstring * A)) : Permutation (entries o) o.
Proof.
  unfold entries. induction o as [|kv o IH]; [reflexivity|].
  cbn [fold_right List.filter].
  destruct (array_index (fst kv)) as [i|] eqn:Hi.
  - rewrite bool_decide_eq_false_2 by discriminate.
    rewrite (Permutation_map snd (insert_by_index_perm i kv _)). cbn [map snd app].
    constructor. exact IH.
  - rewrite bool_decide_eq_true_2 by reflexivity.
    rewrite <- Permutation_middle. constructor. exact IH.
Qed.

Lemma push_to_keys (key : jsstring) (f : Fixer.applied_fix)
    (byFile : list (jsstring * list Fixer.applied_fix)) :
  map fst (push_to key f byFile)
  = if array_includes (map fst byFile) key then map fst byFile
    else map fst byFile ++ [key].
Proof.
  unfold array_includes.
  induction byFile as [|[k fs] byFile IH]; [reflexivity|].
  cbn [push_to map fst existsb]. unfold eqb_str in *.
  destruct (decide (k = key)) as [->|Hk].
  - rewrite !bool_decide_eq_true_2 by reflexivity. reflexivity.
  - rewrite !bool_decide_eq_false_2 by congruence.
    cbn [orb map fst]. rewrite IH. destruct (existsb _ _); reflexivity.
Qed.

Lemma array_includes_spec (names : list jsstring) (name : jsstring) :
  array_includes names name = true <-> In name names.
Proof.
  unfold array_includes. rewrite existsb_exists. split.
  - intros (x & Hx & He). apply bool_decide_eq_true in He. subst. exact Hx.
  - intros H. exists name. split; [exact H|]. apply bool_decide_eq_true. reflexivity.
Qed.

(** The grouping keeps the keys distinct, makes a key only for the file
    of an item, and makes no more keys than there are items. *)
Lemma group_by_file_keys (items : list Fixer.applied_fix)
    (byFile grouped : list (jsstring * list Fixer.applied_fix)) :
  group_by_file items byFile = Normal grouped ->
  NoDup (map fst byFile) ->
  NoDup (map fst grouped) /\
  (forall k, In k (map fst grouped) ->
             In k (map fst byFile)
             \/ exists f, In f items /\ key_of (Fixer.file (Fixer.proposal f)) = k) /\
  (length grouped <= length byFile + length items)%nat.
Proof.
  revert byFile. induction items as [|f items IH]; intros byFile Hg Hnd.
  - cbn in Hg. injection Hg as <-. split; [exact Hnd|]. split; [auto|lia].
  - cbn [group_by_file] in Hg. cbv zeta in Hg.
    destruct (inherited _); [discriminate|].
    apply IH in Hg as (Hnd' & Hin & Hlen).
    + split; [exact Hnd'|]. split.
      * intros k Hk. apply Hin in Hk as [Hk|(f' & Hf' & Hk)].
        -- rewrite push_to_keys in Hk.
           destruct (array_includes _ _); [left; exact Hk|].
           apply in_app_or in Hk as [Hk|[<-|[]]]; [left; exact Hk|].
           right. exists f. split; [left; reflexivity|reflexivity].
        -- right. exists f'. split; [right; exact Hf'|exact Hk].
      * assert (length (push_to (key_of (Fixer.file (Fixer.proposal f))) f byFile)
                <= S (length byFile))%nat as Hp.
        { pose proof (f_equal (@length _)
                        (push_to_keys (key_of (Fixer.file (Fixer.proposal f))) f byFile))
            as Hl.
          rewrite length_map in Hl. rewrite Hl.
          destruct (array_includes _ _);
            rewrite ?length_app, !length_map; cbn [length]; lia. }
        cbn [length]. lia.
    + rewrite push_to_keys.
      destruct (array_includes _ _) eqn:Hi; [exact Hnd|].
      apply NoDup_app. split; [exact Hnd|]. split.
      * intros x Hx [Hk|[]]%list_elem_of_In. subst x. apply list_elem_of_In in Hx.
        apply array_includes_spec in Hx. congruence.
      * apply NoDup_singleton.
Qed.

Section Agent.
Variable env : git_env.

(** The loop over the files: its log and its count. *)
Lemma commit_files_trace (groups : list (jsstring * list Fixer.applied_fix))
    (n : Z) (log : list git_command) :
  commit_files env groups n log
  = (log ++ commit_trace env groups,
     Normal (n + Z.of_nat (length (committed env groups)))).
Proof.
  revert n log. induction groups as [|[file fs] groups IH]; intros n log.
  - cbn. rewrite app_nil_r, Z.add_0_r. reflexivity.
  - cbn [commit_files]. unfold bind at 1. unfold try_catch, bind, call, ret.
    cbn [commit_trace flat_map committed List.filter fst snd].
    destruct (add env file); [destruct (commit env file)|];
      rewrite IH; cbn [length]; rewrite <- ?app_assoc; cbn [app];
      f_equal; f_equal; fold (committed env groups); lia.
Qed.

Lemma added_in_trace (groups : list (jsstring * list Fixer.applied_fix)) :
  added_files (commit_trace env groups) = map fst groups.
Proof.
  induction groups as [|g groups IH]; [reflexivity|].
  cbn [commit_trace flat_map map]. fold (commit_trace env groups).
  unfold added_files in *. destruct (add env (fst g)); cbn; rewrite IH; reflexivity.
Qed.

Lemma pushes_in_trace (groups : list (jsstring * list Fixer.applied_fix)) :
  pushes (commit_trace env groups) = [].
Proof.
  induction groups as [|g groups IH]; [reflexivity|].
  cbn [commit_trace flat_map]. fold (commit_trace env groups).
  unfold pushes in *. destruct (add env (fst g)); cbn; exact IH.
Qed.

Lemma messages_in_trace (groups : list (jsstring * list Fixer.applied_fix)) :
  Forall (fun m => exists g, In g groups /\ m = commit_message (snd g))
         (commit_messages (commit_trace env groups)) /\
  (length (committed env groups)
   <= length (commit_messages (commit_trace env groups)) <= length groups)%nat.
Proof.
  induction groups as [|g groups [IH1 IH2]]; [split; [constructor|cbn; lia]|].
  cbn [commit_trace flat_map committed List.filter]. fold (commit_trace env groups).
  fold (committed env groups).
  assert (Forall (fun m => exists g0, In g0 (g :: groups) /\ m = commit_message (snd g0))
                 (commit_messages (commit_trace env groups))) as IH1'.
  { eapply Forall_impl; [exact IH1|]. intros m (g0 & Hg0 & ->).
    exists g0. split; [right; exact Hg0|reflexivity]. }
  unfold commit_messages in *.
  destruct (add env (fst g)); [destruct (commit env (fst g))|]; cbn; split;
    try lia; try exact IH1';
    (constructor; [exists g; split; [left; reflexivity|reflexivity]|exact IH1']).
Qed.

Lemma starts_with_app (p s : jsstring) : starts_with p (p ++ s) = true.
Proof. induction p as [|c p IH]; [reflexivity|]. cbn. rewrite N.eqb_refl. exact IH. Qed.

Lemma filter_is_fixed (fixes : list Fixer.applied_fix) (f : Fixer.applied_fix) :
  In f (List.filter is_fixed fixes) -> In f fixes /\ Fixer.status f = Fixer.Fixed.
Proof.
  intros [H1 H2]%filter_In. split; [exact H1|].
  apply bool_decide_eq_true in H2. exact H2.
Qed.

(** The log of [commitFixes]: the two settings, then the loop over the
    groups; the groups are one per file of a Fixed fix. *)
Lemma commitFixes_shape (fixes : list Fixer.applied_fix) (log : list git_command) :
  exists cfg groups,
    fst (commitFixes env fixes log) = log ++ cfg ++ commit_trace env groups /\
    (added_files cfg = [] /\ commit_messages cfg = [] /\ pushes cfg = []) /\
    NoDup (map fst groups) /\
    Forall (fun k => exists f, In f fixes /\ Fixer.status f = Fixer.Fixed /\
                               key_of (Fixer.file (Fixer.proposal f)) = k)
           (map fst groups) /\
    (length groups <= Orchestrator.count_fixed fixes)%nat /\
    match snd (commitFixes env fixes log) with
    | Normal n => n = Z.of_nat (length (committed env groups))
    | Throw _ => True
    end.
Proof.
  unfold commitFixes, bind, call, ret.
  destruct (addConfig env) as [[]|m].
  2:{ exists [AddConfig (str "user.email") (str "healflow-ai@agent.bot")], [].
      cbn [fst snd commit_trace flat_map]. rewrite app_nil_r.
      repeat split; try constructor. cbn [length]. lia. }
  set (cfg := [AddConfig (str "user.email") (str "healflow-ai@agent.bot");
               AddConfig (str "user.name") (str "HealFlow AI Agent")]).
  assert (forall l : list git_command,
            (l ++ [AddConfig (str "user.email") (str "healflow-ai@agent.bot")])
            ++ [AddConfig (str "user.name") (str "HealFlow AI Agent")] = l ++ cfg) as Hcfg.
  { intros l. rewrite <- app_assoc. reflexivity. }
  rewrite Hcfg.
  assert (forall o : completion Z,
            exists cfg0 groups,
              log ++ cfg = log ++ cfg0 ++ commit_trace env groups /\
              (added_files cfg0 = [] /\ commit_messages cfg0 = [] /\ pushes cfg0 = []) /\
              NoDup (map fst groups) /\
              Forall (fun k => exists f, In f fixes /\ Fixer.status f = Fixer.Fixed /\
                                         key_of (Fixer.file (Fixer.proposal f)) = k)
                     (map fst groups) /\
              (length groups <= Orchestrator.count_fixed fixes)%nat /\
              match o with
              | Normal n => n = 0 -> n = Z.of_nat (length (committed env groups))
              | Throw _ => True
              end) as Hnone.
  { intros o. exists cfg, []. cbn [commit_trace flat_map app]. rewrite app_nil_r.
    repeat split; try constructor; [cbn [length]; lia|]. destruct o; [intros ->; reflexivity|exact I]. }
  destruct (List.filter is_fixed fixes) as [|f0 fixed] eqn:Hf.
  { destruct (Hnone (Normal 0)) as (c & g & H1 & H2 & H3 & H4 & H5 & H6).
    exists c, g. cbn [fst snd]. repeat split; try tauto; try (apply H6; reflexivity). }
  destruct (group_by_file (f0 :: fixed) []) as [byFile|m] eqn:Hg.
  2:{ destruct (Hnone (Throw m)) as (c & g & H1 & H2 & H3 & H4 & H5 & H6).
      exists c, g. cbn [fst snd]. repeat split; tauto. }
  rewrite commit_files_trace. cbn [fst snd].
  apply group_by_file_keys in Hg as (Hnd & Hin & Hlen); [|constructor].
  pose proof (entries_perm byFile) as Hp.
  exists cfg, (entries byFile). split; [rewrite <- app_assoc; reflexivity|].
  split; [repeat split|]. split.
  { rewrite (Permutation_map fst Hp). exact Hnd. }
  split.
  { apply Forall_forall. intros k Hk%list_elem_of_In.
    eapply Permutation_in in Hk; [|apply Permutation_map, Hp].
    apply Hin in Hk as [[]|(f & Hf1 & Hf2)].
    rewrite <- Hf in Hf1. apply filter_is_fixed in Hf1 as [Hf1 Hf3].
    exists f. repeat split; assumption. }
  split.
  { rewrite (Permutation_length Hp). unfold Orchestrator.count_fixed.
    change (fun f => bool_decide (Fixer.status f = Fixer.Fixed)) with is_fixed.
    rewrite Hf. cbn [length] in Hlen. exact Hlen. }
  lia.
Qed.

Lemma bind_eq {A B : Type} (m : git A) (k : A -> git B) (log : list git_command) :
  bind m k log
  = match m log with
    | (log', Normal a) => k a log'
    | (log', Throw e) => (log', Throw e)
    end.
Proof. reflexivity. Qed.

(** [ensureBranch] lists the branches and checks one out. *)
Lemma ensureBranch_shape (branchName : jsstring) (log : list git_command) :
  exists pre,
    fst (ensureBranch env branchName log) = log ++ pre /\
    added_files pre = [] /\ commit_messages pre = [] /\ pushes pre = [].
Proof.
  cbv [ensureBranch bind call ret].
  destruct (branchLocal env) as [all|m];
    [destruct (array_includes all branchName);
     destruct (checkout env branchName) as [[]|m]|];
    cbn [fst]; rewrite <- ?app_assoc;
    (eexists; split; [reflexivity|]); repeat split.
Qed.

Section Push.
Variable token : option jsstring.

(** The log of [pushBranch]: the push is the last call, and it is made
    unless reading or setting the remote threw. *)
Lemma pushBranch_shape (branchName : jsstring) (log : list git_command) :
  exists post,
    fst (pushBranch env token branchName log) = log ++ post /\
    (added_files post = [] /\ commit_messages post = []) /\
    match snd (pushBranch env token branchName log) with
    | Normal _ => pushes post = [branchName]
    | Throw _ => pushes post = [] \/ pushes post = [branchName]
    end.
Proof.
  cbv [pushBranch bind call ret].
  destruct token as [[|c t]|];
    [|destruct (getRemotes env) as [[url|]|m];
      [destruct (negb (includes (c :: t) url));
       [destruct (remoteSetUrl env) as [[]|m]|]| |]|];
    cbn [fst snd]; rewrite <- ?app_assoc;
    (eexists; split; [reflexivity|]; split; [split; reflexivity|]);
    solve [ destruct (push env); [reflexivity|right; reflexivity]
          | left; reflexivity ].
Qed.

(** The log of [commitAndPush], from an empty log: the calls before the
    loop over the files, the loop, and the calls of the push. *)
Lemma commitAndPush_shape (fixes : list Fixer.applied_fix) (branchName : jsstring) :
  exists pre groups post,
    fst (commitAndPush env token fixes branchName []) = pre ++ commit_trace env groups ++ post /\
    (added_files pre = [] /\ commit_messages pre = [] /\ pushes pre = []) /\
    NoDup (map fst groups) /\
    Forall (fun k => exists f, In f fixes /\ Fixer.status f = Fixer.Fixed /\
                               key_of (Fixer.file (Fixer.proposal f)) = k)
           (map fst groups) /\
    (length groups <= Orchestrator.count_fixed fixes)%nat /\
    (added_files post = [] /\ commit_messages post = []) /\
    match snd (commitAndPush env token fixes branchName []) with
    | Normal n =>
        n = Z.of_nat (length (committed env groups)) /\
        pushes post = (if (n >? 0)%Z then [branchName] else [])
    | Throw _ =>
        pushes post = [] \/ (pushes post = [branchName] /\ committed env groups <> [])
    end.
Proof.
  unfold commitAndPush. rewrite bind_eq.
  destruct (ensureBranch_shape branchName []) as (pre & Hlog & Ha & Hc & Hp).
  destruct (ensureBranch env branchName []) as [log0 [b|m]]; cbn [fst app] in Hlog; subst log0.
  2:{ exists pre, [], []. cbn [fst snd commit_trace flat_map app map].
      rewrite app_nil_r.
      split; [reflexivity|]. split; [repeat split; assumption|].
      split; [constructor|]. split; [constructor|]. split; [cbn [length]; lia|].
      split; [split; reflexivity|left; reflexivity]. }
  rewrite bind_eq.
  destruct (commitFixes_shape fixes pre)
    as (cfg & groups & Hlog & (Ha' & Hc' & Hp') & Hnd & Hin & Hlen & Hn).
  assert (added_files (pre ++ cfg) = [] /\ commit_messages (pre ++ cfg) = []
          /\ pushes (pre ++ cfg) = []) as Hpre.
  { unfold added_files, commit_messages, pushes in *.
    rewrite !omap_app, Ha, Hc, Hp, Ha', Hc', Hp'. repeat split. }
  destruct (commitFixes env fixes pre) as [log1 [n|m]];
    cbn [fst snd] in Hlog, Hn; subst log1.
  2:{ exists (pre ++ cfg), groups, []. cbn [fst snd].
      rewrite app_nil_r, <- app_assoc.
      split; [reflexivity|]. split; [exact Hpre|]. repeat (split; [assumption|]).
      split; [split; reflexivity|left; reflexivity]. }
  rewrite bind_eq. destruct (n >? 0)%Z eqn:Hpos.
  - destruct (pushBranch_shape branchName (pre ++ cfg ++ commit_trace env groups))
      as (post & Hlog & Hq & Hres).
    destruct (pushBranch env token branchName _) as [log2 [[]|m]];
      cbn [fst snd] in Hlog, Hres |- *; subst log2;
      exists (pre ++ cfg), groups, post;
      (split; [rewrite <- !app_assoc; reflexivity|]);
      (split; [exact Hpre|]); repeat (split; [assumption|]).
    + rewrite Hpos. exact Hres.
    + destruct Hres as [Hres|Hres]; [left; exact Hres|right]. split; [exact Hres|].
      intros H0. rewrite H0 in Hn. cbn in Hn. subst n. discriminate.
  - exists (pre ++ cfg), groups, []. cbn [fst snd ret].
    rewrite app_nil_r, <- app_assoc. rewrite Hpos.
    split; [reflexivity|]. split; [exact Hpre|]. repeat (split; [assumption|]).
    repeat split. exact Hn.
Qed.

(** What the shape of the log says about the calls it holds. *)
Lemma log_observed (pre post : list git_command)
    (groups : list (jsstring * list Fixer.applied_fix)) :
  added_files pre = [] -> commit_messages pre = [] -> pushes pre = [] ->
  added_files post = [] -> commit_messages post = [] ->
  let log := pre ++ commit_trace env groups ++ post in
  added_files log = map fst groups /\
  commit_messages log = commit_messages (commit_trace env groups) /\
  pushes log = pushes post.
Proof.
  intros H1 H2 H3 H4 H5. cbv zeta.
  pose proof (added_in_trace groups) as Ha. pose proof (pushes_in_trace groups) as Hp.
  unfold added_files, commit_messages, pushes in *.
  rewrite !omap_app, H1, H2, H3, H4, H5, Ha, Hp, !app_nil_r. repeat split.
Qed.

End Push.

End Agent.

(** X20.  Every commit the Committer makes carries a message that begins
    with the tag [AI-AGENT] and the word Fix, whatever the fixes, the
    branch, the token and the outcomes of the git calls are. *)
Theorem X20_commit_messages_tagged (env : git_env) (token : option jsstring)
    (fixes : list Fixer.applied_fix) (branchName : jsstring) :
  Forall (fun m => starts_with (str "[AI-AGENT] Fix ") m = true)
         (commit_messages (fst (commitAndPush env token fixes branchName []))).
Proof.
  destruct (commitAndPush_shape env token fixes branchName)
    as (pre & groups & post & -> & (Ha & Hc & Hp) & _ & _ & _ & (Ha' & Hc') & _).
  destruct (log_observed env pre post groups Ha Hc Hp Ha' Hc') as (_ & -> & _).
  eapply Forall_impl; [apply messages_in_trace|].
  intros m (g & _ & ->). apply starts_with_app.
Qed.


(** X22.  The Committer groups the fixes by file: it stages no file
    twice, and every file it stages is the file of a fix whose status is
    Fixed. *)
Theorem X22_one_commit_per_file (env : git_env) (token : option jsstring)
    (fixes : list Fixer.applied_fix) (branchName : jsstring) :
  let log := fst (commitAndPush env token fixes branchName []) in
  NoDup (added_files log) /\
  Forall (fun name => exists f, In f fixes /\ Fixer.status f = Fixer.Fixed /\
                                key_of (Fixer.file (Fixer.proposal f)) = name)
         (added_files log).
Proof.
  cbv zeta.
  destruct (commitAndPush_shape env token fixes branchName)
    as (pre & groups & post & -> & (Ha & Hc & Hp) & Hnd & Hin & _ & (Ha' & Hc') & _).
  destruct (log_observed env pre post groups Ha Hc Hp Ha' Hc') as (-> & _ & _).
  split; assumption.
Qed.

End CommitterFacts.

(** ** The Monitor *)

Module MonitorFacts.
Import JS Helpers Monitor MonitorSpec.

Lemma eqb_str_eq (a b : jsstring) : eqb_str a b = true <-> a = b.
Proof. unfold eqb_str. apply bool_decide_eq_true. Qed.

(** The polling ends at the first poll that shows a completed run. *)
Lemma poll_first_completed (pre post : list (completion (list workflow_run)))
    (r : workflow_run) (rs : list workflow_run) :
  forallb undecided pre = true ->
  run_status r = str "completed" ->
  pollWorkflowStatus (pre ++ Normal (r :: rs) :: post)
  = CiResult (Some (bool_decide (conclusion r = Some (str "success"))))
             (conclusion r) (Some (html_url r)) (Some (run_id r)).
Proof.
  intros Hpre Hr. induction pre as [|p pre IH].
  - cbn. rewrite Hr. unfold eqb_str. rewrite bool_decide_eq_true_2 by reflexivity.
    reflexivity.
  - cbn [forallb] in Hpre. apply andb_prop in Hpre as [Hp Hpre].
    cbn [app pollWorkflowStatus]. destruct p as [[|r0 rs0]|m]; try (apply IH, Hpre).
    cbn [undecided] in Hp. apply negb_true_iff in Hp. rewrite Hp. apply IH, Hpre.
Qed.

(** A poll list without a completed run ends in the timeout. *)
Lemma poll_decided (polls : list (completion (list workflow_run))) :
  passed (pollWorkflowStatus polls) = Some true ->
  exists pre r rs post,
    polls = pre ++ Normal (r :: rs) :: post /\
    forallb undecided pre = true /\
    run_status r = str "completed" /\
    conclusion r = Some (str "success").
Proof.
  induction polls as [|p polls IH]; [discriminate|].
  cbn [pollWorkflowStatus].
  destruct p as [[|r rs]|m].
  - intros (pre & r & rs & post & -> & Hpre & Hr)%IH.
    exists (Normal [] :: pre), r, rs, post. repeat split; tauto.
  - destruct (eqb_str (run_status r) (str "completed")) eqn:Hs.
    + cbn [passed]. intros [= Hc%bool_decide_eq_true].
      exists [], r, rs, polls. apply eqb_str_eq in Hs. repeat split; assumption.
    + intros (pre & r' & rs' & post & -> & Hpre & Hr)%IH.
      exists (Normal (r :: rs) :: pre), r', rs', post.
      cbn [forallb undecided]. rewrite Hs. repeat split; tauto.
  - intros (pre & r & rs & post & -> & Hpre & Hr)%IH.
    exists (Throw m :: pre), r, rs, post. repeat split; tauto.
Qed.

(** X23.  The Monitor reports a passed CI run exactly when the repository
    lists a workflow and the first poll that shows a completed run shows
    the conclusion success.  Polls that throw, that list no run or whose
    latest run is not completed are passed over; without a workflow, and
    when the polls run out, the run is not counted as passed. *)
Theorem X23_ci_passed_iff (env : github_env) :
  ci_green (monitorCI env) = true <->
  (exists w ws, listRepoWorkflows env = Normal (w :: ws)) /\
  (exists pre r rs post,
     listWorkflowRuns env = pre ++ Normal (r :: rs) :: post /\
     forallb undecided pre = true /\
     run_status r = str "completed" /\
     conclusion r = Some (str "success")).
Proof.
  unfold ci_green, monitorCI, triggerWorkflow. split.
  - destruct (listRepoWorkflows env) as [[|w ws]|m]; cbn [passed]; try discriminate.
    intros H. split; [exists w, ws; reflexivity|]. apply poll_decided.
    destruct (passed (pollWorkflowStatus (listWorkflowRuns env))) as [[]|];
      [reflexivity|discriminate|discriminate].
  - intros [(w & ws & ->) (pre & r & rs & post & -> & Hpre & Hr & Hc)].
    rewrite (poll_first_completed pre post r rs Hpre Hr). cbn [passed].
    rewrite bool_decide_eq_true_2 by exact Hc. reflexivity.
Qed.

End MonitorFacts.

(** ** The run store and the poll route *)

Module RunStoreFacts.
Import JS Helpers RunStore.

Section Store.
Context {Meta Entry Result : Type}.
Implicit Types (s : store Meta Entry Result) (r : run Meta Entry Result).

Lemma get_set_eq s (id : jsstring) r : get (set s id r) id = Some r.
Proof.
  induction s as [|[k r0] s IH]; cbn [set get]; unfold eqb_str.
  - rewrite bool_decide_eq_true_2 by reflexivity. reflexivity.
  - destruct (decide (k = id)) as [->|Hk].
    + rewrite bool_decide_eq_true_2 by reflexivity. cbn [get]. unfold eqb_str.
      rewrite bool_decide_eq_true_2 by reflexivity. reflexivity.
    + rewrite bool_decide_eq_false_2 by exact Hk. cbn [get]. unfold eqb_str.
      rewrite bool_decide_eq_false_2 by exact Hk. exact IH.
Qed.

Lemma get_set_ne s (id id' : jsstring) r : id <> id' -> get (set s id r) id' = get s id'.
Proof.
  intros Hne. induction s as [|[k r0] s IH]; cbn [set get]; unfold eqb_str.
  - rewrite bool_decide_eq_false_2 by exact Hne. reflexivity.
  - destruct (decide (k = id)) as [->|Hk].
    + rewrite bool_decide_eq_true_2 by reflexivity. cbn [get]. unfold eqb_str.
      rewrite !bool_decide_eq_false_2 by exact Hne. reflexivity.
    + rewrite bool_decide_eq_false_2 by exact Hk. cbn [get].
      unfold eqb_str. destruct (bool_decide (k = id')); [reflexivity|exact IH].
Qed.

(** The log entries as [appendLog] stores them. *)
Lemma appended_logs s (id : jsstring) r (es : list (jsstring * Entry)) :
  getRun s id = Some r ->
  getRun (fold_left (fun s e => appendLog s (fst e) id (snd e)) es s) id
  = Some (Run (runId r) (status r) (startedAt r) (completedAt r) (meta r)
              (logs r ++ map (fun e => LogEntry (fst e) (snd e)) es) (result r)).
Proof.
  revert s r. induction es as [|e es IH]; intros s r Hr.
  - cbn. rewrite app_nil_r. destruct r. exact Hr.
  - cbn [fold_left map]. unfold getRun in *.
    erewrite IH; [|unfold appendLog; rewrite Hr; apply get_set_eq].
    cbn. rewrite <- app_assoc. reflexivity.
Qed.

End Store.

(** X24.  While a run is running, a poll of its results shows the run as
    processing, with the last twenty of its log entries, in the order they
    were appended: the entries the run had followed by the appended ones,
    less all but the last twenty. *)
Theorem X24_poll_shows_last_logs {Meta Entry Result : Type}
    (s : store Meta Entry Result) (id : jsstring) (r : run Meta Entry Result)
    (es : list (jsstring * Entry)) :
  getRun s id = Some r ->
  status r = running ->
  let shown := last_20 (logs r ++ map (fun e => LogEntry (fst e) (snd e)) es) in
  get_results (fold_left (fun s e => appendLog s (fst e) id (snd e)) es s) id
  = Processing (runId r) (startedAt r) shown /\
  length shown = Nat.min 20 (length (logs r) + length es) /\
  exists earlier, logs r ++ map (fun e => LogEntry (fst e) (snd e)) es = earlier ++ shown.
Proof.
  intros Hr Hs shown. split; [|split].
  - unfold get_results. rewrite (appended_logs s id r es Hr). cbn [status]. rewrite Hs.
    reflexivity.
  - unfold shown, last_20. rewrite length_drop, length_app, length_map. lia.
  - eexists. unfold shown, last_20. symmetry. apply take_drop.
Qed.

Lemma X24_witness :
  let s := fst (createRun (Meta := unit) (Entry := nat) (Result := unit)
                  [] (JS.str "t0") (JS.str "run-1") tt) in
  get_results (fold_left (fun s e => appendLog s (fst e) (JS.str "run-1") (snd e))
                 [(JS.str "t1", 1%nat); (JS.str "t2", 2%nat)] s) (JS.str "run-1")
  = Processing (JS.str "run-1") (JS.str "t0")
      [LogEntry (JS.str "t1") 1%nat; LogEntry (JS.str "t2") 2%nat].
Proof.
  cbv zeta.
  refine (proj1 (X24_poll_shows_last_logs _ (JS.str "run-1")
                   (Run (Meta := unit) (Entry := nat) (Result := unit) (JS.str "run-1") running (JS.str "t0") None tt [] None)
                   [(JS.str "t1", 1%nat); (JS.str "t2", 2%nat)] _ _));
    reflexivity.
Defined.

(** X25.  Once a run has settled, a poll of its results no longer says
    processing: it returns the report with the state completed when the
    final status is PASSED and failed otherwise, or the error message with
    the state error when the run rejected; the completion time is the
    time of the update and the start time is kept. *)
Theorem X25_settled_run_is_reported {Meta Entry : Type}
    (s : store Meta Entry (Orchestrator.results + jsstring)) (now id : jsstring)
    (r : run Meta Entry (Orchestrator.results + jsstring))
    (outcome : completion Orchestrator.results) :
  getRun s id = Some r ->
  get_results (settle s now id outcome) id
  = match outcome with
    | Normal report =>
        Finished (if bool_decide (Orchestrator.finalStatus report = Orchestrator.PASSED)
                  then completed else failed)
                 (runId r) (startedAt r) (Some now) (Some (inl report))
    | Throw message =>
        Finished error (runId r) (startedAt r) (Some now) (Some (inr message))
    end.
Proof.
  intros Hr. unfold get_results, settle, updateRun, getRun in *.
  destruct outcome as [report|message]; rewrite Hr; cbn [fst];
    rewrite get_set_eq; cbn [status assign u_status default from_option Datatypes.id];
    [destruct (bool_decide _)|]; reflexivity.
Qed.

Lemma X25_witness :
  let report := Orchestrator.buildResults (JS.str "TEAM_LEAD_AI_Fix")
                  (Orchestrator.initial_state ∅) Orchestrator.PASSED 0 in
  let s := fst (createRun (Meta := unit) (Entry := unit) [] (JS.str "t0") (JS.str "run-1") tt) in
  get_results (settle s (JS.str "t9") (JS.str "run-1") (Normal report)) (JS.str "run-1")
  = Finished completed (JS.str "run-1") (JS.str "t0") (Some (JS.str "t9"))
             (Some (inl report)).
Proof.
  cbv zeta.
  refine (X25_settled_run_is_reported _ (JS.str "t9") (JS.str "run-1")
            (Run (Meta := unit) (Entry := unit) (JS.str "run-1") running (JS.str "t0")
                 None tt [] None)
            (Normal (Orchestrator.buildResults (JS.str "TEAM_LEAD_AI_Fix")
                       (Orchestrator.initial_state ∅) Orchestrator.PASSED 0))
            _).
  reflexivity.
Defined.

(** The store keeps the runs apart: creating, updating, logging to
    or settling one run leaves what is stored under every other run id as
    it was, and so the answer to a poll for it. *)
Theorem other_runs_untouched {Meta Entry : Type}
    (s : store Meta Entry (Orchestrator.results + jsstring)) (now id id' : jsstring)
    (m : Meta) (e : Entry) (u : updates (Orchestrator.results + jsstring))
    (outcome : completion Orchestrator.results) :
  id <> id' ->
  getRun (fst (createRun s now id m)) id' = getRun s id' /\
  getRun (fst (updateRun s id u)) id' = getRun s id' /\
  getRun (appendLog s now id e) id' = getRun s id' /\
  getRun (settle s now id outcome) id' = getRun s id' /\
  get_results (settle s now id outcome) id' = get_results s id'.
Proof.
  intros Hne.
  assert (forall u0, getRun (fst (updateRun s id u0)) id' = getRun s id') as Hu.
  { intros u0. unfold updateRun, getRun.
    destruct (get s id); cbn [fst]; [apply get_set_ne, Hne|reflexivity]. }
  assert (getRun (settle s now id outcome) id' = getRun s id') as Hs.
  { unfold settle. destruct outcome; apply Hu. }
  split; [apply get_set_ne, Hne|]. split; [apply Hu|]. split.
  - unfold appendLog, getRun. destruct (get s id); [apply get_set_ne, Hne|reflexivity].
  - split; [exact Hs|]. unfold get_results. rewrite Hs. reflexivity.
Qed.

Lemma other_runs_example :
  let s := fst (createRun (Meta := unit) (Entry := unit) [] (JS.str "t0") (JS.str "run-1") tt) in
  get_results (settle s (JS.str "t9") (JS.str "run-2") (Throw (JS.str "boom")))
              (JS.str "run-1")
  = get_results s (JS.str "run-1").
Proof.
  cbv zeta.
  refine (proj2 (proj2 (proj2 (proj2
           (other_runs_untouched _ (JS.str "t9") (JS.str "run-2") (JS.str "run-1")
              tt tt (Updates None None None) (Throw (JS.str "boom")) _))))).
  vm_compute. discriminate.
Defined.

End RunStoreFacts.

(** ** More on the Orchestrator *)

Module OrchestratorMore.
Import JS Helpers FileSystem Orchestrator OrchestratorSpec TimelineSpec.

Lemma failed_entries_snoc (tl : list iteration_record) (r : iteration_record) :
  failed_entries (tl ++ [r])
  = (failed_entries tl + match status r with FAILED => 1 | _ => 0 end)%nat.
Proof.
  unfold failed_entries. rewrite List.filter_app, length_app.
  destruct r as [i []]; reflexivity.
Qed.

Section Run.
Variable unicode_upper : jsstring -> jsstring.
Variable cwd : jsstring.
Variable JSON_parse : jsstring -> completion (list Fixer.fix_proposal).
Variable GEMINI_MODEL : option jsstring.
Variable RETRY_LIMIT : Z.
Variable w : world.

Local Abbreviation loop := (fix_loop cwd JSON_parse GEMINI_MODEL RETRY_LIMIT w).

Ltac split_loop H :=
  repeat match type of H with
         | context [match ?x with _ => _ end] => destruct x eqn:?
         end.

Ltac at_end :=
  unfold timeline_at_end;
  cbn [end_state end_status end_iteration thrown events st_timeline st_totalFailures
       addTimeline broadcast];
  rewrite ?app_nil_r.

(** The final status of the fix loop is read off the last timeline entry,
    when the loop starts after a failing test run. *)
Lemma fix_loop_status (fuel : nat) (i : Z) (repoDir out : jsstring) (st : state) :
  (exists j s, last (st_timeline st) = Some (IterationRecord j s) /\ is_green s = false) ->
  let e := loop fuel i repoDir out st in
  exists j s, last (timeline_at_end e) = Some (IterationRecord j s) /\
              end_status e = if is_green s then PASSED else FAILED.
Proof.
  cbv zeta. remember (loop fuel i repoDir out st) as e eqn:He. symmetry in He.
  revert i out st e He. induction fuel as [|fuel IH]; intros i out st e He (j & s & Hl & Hs).
  - cbn in He. subst e. at_end. exists j, s. rewrite Hs. split; [exact Hl|reflexivity].
  - cbn [fix_loop] in He. split_loop He;
      first [ solve [subst e; at_end; exists j, s; rewrite Hs; split; [exact Hl|reflexivity]]
            | solve [subst e; at_end; rewrite ?last_snoc; eexists _, _;
                     split; [first [apply last_snoc | reflexivity]|reflexivity]]
            | solve [apply IH in He; [exact He|];
                     cbn [st_timeline addTimeline]; rewrite last_snoc;
                     eexists _, _; split; [reflexivity|reflexivity]] ].
Qed.

(** The failure count is the number of FAILED entries. *)
Lemma fix_loop_failures (fuel : nat) (i : Z) (repoDir out : jsstring) (st : state) :
  st_totalFailures st = Z.of_nat (failed_entries (st_timeline st)) ->
  let e := loop fuel i repoDir out st in
  st_totalFailures (end_state e) = Z.of_nat (failed_entries (timeline_at_end e)).
Proof.
  cbv zeta. remember (loop fuel i repoDir out st) as e eqn:He. symmetry in He.
  revert i out st e He. induction fuel as [|fuel IH]; intros i out st e He H0.
  - cbn in He. subst e. at_end. exact H0.
  - cbn [fix_loop] in He. split_loop He;
      first [ solve [subst e; at_end; rewrite ?failed_entries_snoc; cbn [status]; lia]
            | solve [apply IH in He; [exact He|];
                     cbn [st_timeline st_totalFailures addTimeline broadcast];
                     rewrite failed_entries_snoc; cbn [status]; lia] ].
Qed.

(** The iterations announce themselves in order, from the first one
    on. *)
Lemma fix_loop_events (fuel : nat) (i : Z) (repoDir out : jsstring) (st : state) :
  let e := loop fuel i repoDir out st in
  exists k : Z,
    events (end_state e) = events st ++ map iteration_start (seqZ i k) /\
    (0 <= k <= Z.of_nat fuel)%Z /\ (k = 0 \/ i + k - 1 <= RETRY_LIMIT)%Z.
Proof.
  cbv zeta. remember (loop fuel i repoDir out st) as e eqn:He. symmetry in He.
  revert i out st e He. induction fuel as [|fuel IH]; intros i out st e He.
  - cbn in He. subst e. exists 0%Z. cbn. rewrite app_nil_r. repeat split; lia.
  - cbn [fix_loop] in He.
    destruct (negb (i <=? RETRY_LIMIT)%Z) eqn:Hle.
    { subst e. exists 0%Z. cbn. rewrite app_nil_r. repeat split; lia. }
    apply negb_false_iff, Z.leb_le in Hle.
    split_loop He;
      first [ solve [subst e; at_end; exists 1%Z; split; [reflexivity|]; lia]
            | apply IH in He as (k & He & Hk & Hlim);
              cbn [events addTimeline broadcast] in He;
              exists (k + 1)%Z; split;
              [rewrite He, <- app_assoc; cbn [app];
               rewrite (seqZ_cons i (k + 1)) by lia;
               replace (Z.pred (k + 1)) with k by lia; reflexivity
              |lia] ].
Qed.

Local Abbreviation run_of fs0 runId url team leader :=
  (run unicode_upper cwd JSON_parse GEMINI_MODEL RETRY_LIMIT w fs0 runId url team leader).

(** What the [try] block of [run] leaves behind. *)
Lemma try_block_invariants (runId : jsstring) (fs0 : FS) :
  let e := fst (try_block cwd JSON_parse GEMINI_MODEL RETRY_LIMIT w runId
                  (broadcast (initial_state fs0) pipeline_start)) in
  (exists j s, last (timeline_at_end e) = Some (IterationRecord j s) /\
               end_status e = if is_green s then PASSED else FAILED) /\
  st_totalFailures (end_state e) = Z.of_nat (failed_entries (timeline_at_end e)) /\
  exists k : Z,
    events (end_state e) = pipeline_start :: map iteration_start (seqZ 1 k) /\
    (0 <= k <= Z.max 0 RETRY_LIMIT)%Z.
Proof.
  cbv zeta. unfold try_block.
  destruct (Analyzer.analyze _ _ _ _ _ _ _ _) as [fs1 [a|m]]; cbn [fst].
  - destruct (Analyzer.analysis_passed a); cbn [fst].
    + at_end. cbn [initial_state st_timeline events app]. split; [|split].
      * eexists _, _. split; reflexivity.
      * reflexivity.
      * exists 0%Z. split; [reflexivity|lia].
    + match goal with
      | |- context [fix_loop _ _ _ _ _ ?fuel ?i ?d ?o ?st] =>
          pose proof (fix_loop_status fuel i d o st) as H1;
          pose proof (fix_loop_failures fuel i d o st) as H2;
          pose proof (fix_loop_events fuel i d o st) as H3
      end.
      cbv zeta in H1, H2, H3. split; [|split].
      * apply H1. eexists _, _. split; reflexivity.
      * apply H2. reflexivity.
      * destruct H3 as (k & He & Hk & _). exists k. split; [exact He|lia].
  - at_end. cbn [initial_state st_timeline events app]. split; [|split].
    + eexists _, _. split; reflexivity.
    + reflexivity.
    + exists 0%Z. split; [reflexivity|lia].
Qed.

(** The report of a run that settled, in terms of its [try] block. *)
Lemma settled_report (fs0 : FS) (runId url team leader : jsstring) (res : results) :
  let r := run_of fs0 runId url team leader in
  let e := fst (try_block cwd JSON_parse GEMINI_MODEL RETRY_LIMIT w runId
                  (broadcast (initial_state fs0) pipeline_start)) in
  settled r = Normal res ->
  timeline res = timeline_at_end e /\
  finalStatus res = end_status e /\
  totalFailures res = st_totalFailures (end_state e) /\
  broadcasts r = events (end_state e) ++ [pipeline_done res].
Proof.
  cbv zeta. unfold run.
  destruct (parseRepoUrl url) as [rr|m]; [|discriminate].
  destruct (try_block _ _ _ _ _ _ _) as [e dir]. cbn [fst].
  destruct (save_results w); [|discriminate].
  cbn [settled broadcasts]. intros [= <-]. unfold timeline_at_end.
  destruct (thrown e);
    cbn [timeline finalStatus totalFailures buildResults st_timeline st_totalFailures
         addTimeline events broadcast];
    rewrite ?app_nil_r; repeat split.
Qed.

(** X26.  The timeline of a report holds the entry of the initial
    analysis, one entry for every repair iteration that was started, and
    one more entry if a CI run passed.  At most RETRY_LIMIT iterations are
    started and at most one CI run passes, so the timeline never holds
    more than RETRY_LIMIT + 2 entries. *)
Theorem X26_timeline_accounts (fs0 : FS) (runId url team leader : jsstring)
    (res : results) :
  let r := run_of fs0 runId url team leader in
  settled r = Normal res ->
  (length (timeline res)
   = 1 + iterations_started (broadcasts r) + ci_passes (timeline res))%nat /\
  (iterations_started (broadcasts r) <= Z.to_nat RETRY_LIMIT)%nat /\
  (ci_passes (timeline res) <= 1)%nat /\
  (length (timeline res) <= Z.to_nat RETRY_LIMIT + 2)%nat.
Proof.
  cbv zeta. intros H.
  apply (OrchestratorFacts.run_accounts unicode_upper cwd JSON_parse GEMINI_MODEL
           RETRY_LIMIT w) in H.
  cbv zeta in H. destruct H as (H1 & H2 & H3 & _). repeat split; lia.
Qed.

(** X27.  The final status of a report is read off its timeline: the
    timeline is never empty, and the final status is PASSED when its last
    entry is PASSED or CI_PASSED and FAILED in every other case. *)
Theorem X27_final_status_from_timeline (fs0 : FS) (runId url team leader : jsstring)
    (res : results) :
  settled (run_of fs0 runId url team leader) = Normal res ->
  exists j s, last (timeline res) = Some (IterationRecord j s) /\
              finalStatus res = if is_green s then PASSED else FAILED.
Proof.
  intros H. apply settled_report in H. cbv zeta in H. destruct H as (-> & -> & _).
  apply try_block_invariants.
Qed.

(** X28.  The failure count of a report is the number of FAILED entries
    of its timeline: the test runs that failed, the initial one
    included.  Iterations that end with NO_FIXES, APPLY_FAILED or ERROR are
    not counted. *)
Theorem X28_failures_counted (fs0 : FS) (runId url team leader : jsstring)
    (res : results) :
  settled (run_of fs0 runId url team leader) = Normal res ->
  totalFailures res = Z.of_nat (failed_entries (timeline res)).
Proof.
  intros H. apply settled_report in H. cbv zeta in H. destruct H as (-> & _ & -> & _).
  apply try_block_invariants.
Qed.

(** X29.  The Orchestrator announces a run in order: the start of the
    pipeline, then the iterations 1, 2, ... up to some k that is at most
    RETRY_LIMIT, then the end of the pipeline, with the very report the
    run resolves with. *)
Theorem X29_broadcast_order (fs0 : FS) (runId url team leader : jsstring)
    (res : results) :
  settled (run_of fs0 runId url team leader) = Normal res ->
  exists k : Z,
    broadcasts (run_of fs0 runId url team leader)
    = pipeline_start :: map iteration_start (seqZ 1 k) ++ [pipeline_done res] /\
    (0 <= k <= Z.max 0 RETRY_LIMIT)%Z.
Proof.
  intros H. apply settled_report in H. cbv zeta in H. destruct H as (_ & _ & _ & ->).
  destruct (try_block_invariants runId fs0) as (_ & _ & k & -> & Hk).
  exists k. split; [reflexivity|exact Hk].
Qed.

(** X30.  When the analysis returned, the report was saved and the
    removal went through, nothing is left of the working directory of the
    run, whatever the fix loop did in between. *)
Theorem X30_working_tree_removed (fs0 : FS) (runId url team leader : jsstring)
    (rr : repo_ref) (a : Analyzer.analysis) (p : jsstring) :
  parseRepoUrl url = Normal rr ->
  snd (Analyzer.analyze cwd fs0 runId (clone_shallow w) (clone_full w)
         (remote_files w) (inspect_project w) (first_sandbox w)) = Normal a ->
  save_results w = Normal tt ->
  remove_tree w = Normal tt ->
  within (Analyzer.repoDir a) p = true ->
  final_fs (run_of fs0 runId url team leader) !! p = None.
Proof.
  intros Hu Ha Hs Hr Hp.
  destruct (try_block cwd JSON_parse GEMINI_MODEL RETRY_LIMIT w runId
              (broadcast (initial_state fs0) pipeline_start)) as [e dir] eqn:Ht.
  assert (dir = Some (Analyzer.repoDir a)) as ->.
  { unfold try_block in Ht. cbn [fs broadcast initial_state] in Ht.
    destruct (Analyzer.analyze _ _ _ _ _ _ _ _) as [fs1 [a'|m]]; cbn [snd] in Ha;
      [|discriminate].
    injection Ha as ->. destruct (Analyzer.analysis_passed a); injection Ht as _ <-;
      reflexivity. }
  eapply OrchestratorFacts.cleanup_after_analysis; eassumption.
Qed.

End Run.

Import Samples.

Lemma X26_witness :
  exists res,
    settled (sample_run 5 world_ci_green_late) = Normal res /\
    (length (timeline res) <= 7)%nat.
Proof.
  eexists. split; [vm_compute; reflexivity|].
  refine (proj2 (proj2 (proj2
    (X26_timeline_accounts no_unicode app_dir parse_add_colon None 5 world_ci_green_late
       ∅ run_1 project_url (str "Code Warriors") (str "John Doe") _ _)))).
  vm_compute. reflexivity.
Defined.

Lemma X27_witness :
  exists res,
    settled (sample_run 5 world_ci_green_late) = Normal res /\
    exists j s, last (timeline res) = Some (IterationRecord j s) /\
                finalStatus res = if is_green s then PASSED else FAILED.
Proof.
  eexists. split; [vm_compute; reflexivity|].
  refine (X27_final_status_from_timeline no_unicode app_dir parse_add_colon None 5
            world_ci_green_late ∅ run_1 project_url (str "Code Warriors")
            (str "John Doe") _ _).
  vm_compute. reflexivity.
Defined.

Lemma X28_witness :
  exists res,
    settled (sample_run 5 world_ci_green_late) = Normal res /\
    totalFailures res = Z.of_nat (failed_entries (timeline res)).
Proof.
  eexists. split; [vm_compute; reflexivity|].
  refine (X28_failures_counted no_unicode app_dir parse_add_colon None 5
            world_ci_green_late ∅ run_1 project_url (str "Code Warriors")
            (str "John Doe") _ _).
  vm_compute. reflexivity.
Defined.

Lemma X29_witness :
  exists res,
    settled (sample_run 5 world_ci_green_late) = Normal res /\
    exists k : Z,
      broadcasts (sample_run 5 world_ci_green_late)
      = pipeline_start :: map iteration_start (seqZ 1 k) ++ [pipeline_done res] /\
      (0 <= k <= Z.max 0 5)%Z.
Proof.
  eexists. split; [vm_compute; reflexivity|].
  refine (X29_broadcast_order no_unicode app_dir parse_add_colon None 5
            world_ci_green_late ∅ run_1 project_url (str "Code Warriors")
            (str "John Doe") _ _).
  vm_compute. reflexivity.
Defined.

Lemma X30_witness :
  final_fs (sample_run 5 world_ci_green_late) !! (run_1_dir ++ str "/a.py") = None.
Proof.
  refine (X30_working_tree_removed no_unicode app_dir parse_add_colon None 5
            world_ci_green_late ∅ run_1 project_url (str "Code Warriors")
            (str "John Doe") (RepoRef (str "team") (str "project")) _
            (run_1_dir ++ str "/a.py") _ _ _ _ _).
  - vm_compute. reflexivity.
  - vm_compute. reflexivity.
  - reflexivity.
  - reflexivity.
  - vm_compute. reflexivity.
Defined.

End OrchestratorMore.
